(** * The txtai API gateway ([src/python/txtai/api/base.py])

    A shallow embedding of the [API] class: the dispatch between a local
    embeddings index and a cluster, the document buffer and its write lock,
    result normalisation, the [limit] clamp, workflow task resolution and
    the generic pipeline / workflow entry points. *)

From Stdlib Require Import ZArith Floats Ascii String.
From stdpp Require Import base option list strings gmap fin_maps.

Local Open Scope Z_scope.
Local Set Warnings "-register-all".
Local Set Warnings "-automation".
Local Set Warnings "-inexact-float".

(** ** Python values *)

(** Callable objects the gateway holds in its registries and stores inside
    task descriptors: its own bound methods, and pipeline and workflow
    instances (identified by a handle). *)
Inductive Obj :=
| BoundAdd
| BoundIndex
| BoundUpsert
| PipelineObj (h : N)
| WorkflowObj (h : N).

(** The fragment of Python's dynamic values that [base.py] inspects with
    [isinstance], indexes, or tests for truth. A [dict] value keeps its
    items in insertion order. *)
Inductive PyVal :=
| PNone
| PBool (b : bool)
| PInt (z : Z)
| PFloat (f : float)
| PStr (s : string)
| PTuple (l : list PyVal)
| PList (l : list PyVal)
| PDict (d : list (string * PyVal))
| PObj (o : Obj).

Inductive Exn :=
| KeyError (k : string)
| IndexError
| ValueError
| TypeError
| OverflowError
| AttributeError
| ExternalError (tag : string)
| WouldBlock.

(** Result of running a piece of the gateway: a value or a raised
    exception. [WouldBlock] is no Python exception: it marks a call that
    found the write lock held and waits for it. *)
Inductive Outcome (A : Type) :=
| Ok (a : A)
| Raise (e : Exn).
Arguments Ok {A} a.
Arguments Raise {A} e.

(** Python truth value testing. *)
Definition py_truthy (v : PyVal) : bool :=
  match v with
  | PNone => false
  | PBool b => b
  | PInt z => negb (z =? 0)
  | PFloat f => negb (PrimFloat.eqb f 0%float)
  | PStr s => negb (String.eqb s "")
  | PTuple l | PList l => negb (Nat.eqb (length l) 0)
  | PDict d => negb (Nat.eqb (length d) 0)
  | PObj _ => true
  end.

(** [d[k]] on a dict value, [None] standing for the [KeyError]. *)
Fixpoint dict_get (d : list (string * PyVal)) (k : string) : option PyVal :=
  match d with
  | [] => None
  | (k', v) :: d' => if String.eqb k' k then Some v else dict_get d' k
  end.

(** *** The builtin [int] *)

Definition is_space (a : ascii) : bool :=
  let n := Ascii.nat_of_ascii a in
  (Nat.eqb n 32 || (Nat.leb 9 n && Nat.leb n 13))%bool.

Fixpoint lstrip (l : list ascii) : list ascii :=
  match l with
  | a :: l' => if is_space a then lstrip l' else l
  | [] => []
  end.

Definition strip (l : list ascii) : list ascii :=
  rev (lstrip (rev (lstrip l))).

Definition digit_of (a : ascii) : option Z :=
  let n := Z.of_nat (Ascii.nat_of_ascii a) in
  if (48 <=? n) && (n <=? 57) then Some (n - 48) else None.

(** Digits with single underscores between them; [prev] tells whether the
    previous character was a digit. *)
Fixpoint digits (acc : Z) (prev : bool) (l : list ascii) : option Z :=
  match l with
  | [] => if prev then Some acc else None
  | a :: l' =>
      match digit_of a with
      | Some d => digits (10 * acc + d) true l'
      | None =>
          if (Ascii.eqb a "_" && prev)%bool
          then match l' with
               | [] => None
               | _ => digits acc false l'
               end
          else None
      end
  end.

(** [int(s)] for a string of ASCII characters: surrounding white space, an
    optional sign, decimal digits; any other ASCII text is a [ValueError].
    (Digits outside ASCII, which Python reads as well, are not modelled.) *)
Definition int_of_str (s : string) : Outcome Z :=
  let body := strip (list_ascii_of_string s) in
  let '(neg, ds) :=
    match body with
    | "-"%char :: r => (true, r)
    | "+"%char :: r => (false, r)
    | _ => (false, body)
    end in
  match digits 0 false ds with
  | Some n => Ok (if neg : bool then - n else n)
  | None => Raise ValueError
  end.

(** [int(f)] for a float: truncation towards zero. *)
Definition int_of_float (f : float) : Outcome Z :=
  match Prim2SF f with
  | S754_zero _ => Ok 0
  | S754_infinity _ => Raise OverflowError
  | S754_nan => Raise ValueError
  | S754_finite s m e =>
      let mag := if 0 <=? e then Z.shiftl (Z.pos m) e
                 else Z.shiftr (Z.pos m) (- e) in
      Ok (if s then - mag else mag)
  end.

Definition py_int (v : PyVal) : Outcome Z :=
  match v with
  | PInt z => Ok z
  | PBool b => Ok (if b then 1 else 0)
  | PFloat f => int_of_float f
  | PStr s => int_of_str s
  | _ => Raise TypeError
  end.

(** ** [API.limit] *)

(** [max(1, min(250, int(limit) if limit else 10))] *)
Definition limit (l : PyVal) : Outcome Z :=
  match (if py_truthy l then py_int l else Ok 10) with
  | Ok n => Ok (Z.max 1 (Z.min 250 n))
  | Raise e => Raise e
  end.

(** *** The builtin [float] and iteration *)

Definition float_of_Z (z : Z) : float :=
  SF2Prim (binary_normalize prec emax z 0 false).

(** What the gateway needs from the Python runtime and from the pipeline
    package, none of which is defined in [base.py]. *)
Class Runtime := {
  (** [float(s)] for a string *)
  float_of_str : string -> Outcome float;
  (** [PipelineFactory.create({}, name)] *)
  factory_create : PyVal -> Outcome Obj;
  (** calling a pipeline object with positional arguments *)
  pipeline_call : Obj -> list PyVal -> Outcome PyVal
}.

Definition py_float `{Runtime} (v : PyVal) : Outcome float :=
  match v with
  | PFloat f => Ok f
  | PInt z =>
      let f := float_of_Z z in
      if PrimFloat.is_infinity f then Raise OverflowError else Ok f
  | PBool b => Ok (if b then 1%float else 0%float)
  | PStr s => float_of_str s
  | _ => Raise TypeError
  end.

Definition chars (s : string) : list PyVal :=
  map (fun a => PStr (String a EmptyString)) (list_ascii_of_string s).

(** [for x in v]: the elements a [for] loop or a comprehension visits. *)
Definition py_iter (v : PyVal) : Outcome (list PyVal) :=
  match v with
  | PTuple l | PList l => Ok l
  | PStr s => Ok (chars s)
  | PDict d => Ok (map (fun kv => PStr kv.1) d)
  | _ => Raise TypeError
  end.

(** [for a, b in ...]: unpacking one element into two names. *)
Definition unpack2 (v : PyVal) : Outcome (PyVal * PyVal) :=
  match py_iter v with
  | Ok [a; b] => Ok (a, b)
  | Ok _ => Raise ValueError
  | Raise e => Raise e
  end.

Fixpoint py_hashable (v : PyVal) : bool :=
  match v with
  | PList _ | PDict _ => false
  | PTuple l => forallb py_hashable l
  | _ => true
  end.

(** ** Pure computations that may raise *)

Definition obind {A B} (m : Outcome A) (k : A -> Outcome B) : Outcome B :=
  match m with
  | Ok a => k a
  | Raise e => Raise e
  end.

(** A comprehension [[f x for x in l]]: elements are built left to right
    and the first exception ends it. *)
Fixpoint comprehension {A B} (f : A -> Outcome B) (l : list A)
  : Outcome (list B) :=
  match l with
  | [] => Ok []
  | x :: l' =>
      obind (f x) (fun y =>
      obind (comprehension f l') (fun ys => Ok (y :: ys)))
  end.

(** ** Result normalisation *)

Definition record (uid : PyVal) (score : float) : PyVal :=
  PDict [("id", uid); ("score", PFloat score)].

(** [{"id": r[0], "score": float(r[1])} if isinstance(r, tuple) else r] *)
Definition unpack_result `{Runtime} (r : PyVal) : Outcome PyVal :=
  match r with
  | PTuple (uid :: score :: _) =>
      obind (py_float score) (fun f => Ok (record uid f))
  | PTuple _ => Raise IndexError
  | _ => Ok r
  end.

(** [[... for r in results]] of [search] and of the inner loop of
    [batchsearch]. *)
Definition unpack_results `{Runtime} (results : PyVal) : Outcome PyVal :=
  obind (py_iter results) (fun rs =>
  obind (comprehension unpack_result rs) (fun out => Ok (PList out))).

(** [{"id": uid, "score": float(score)} for uid, score in results] *)
Definition score_record `{Runtime} (r : PyVal) : Outcome PyVal :=
  obind (unpack2 r) (fun '(uid, score) =>
  obind (py_float score) (fun f => Ok (record uid f))).

Definition score_records `{Runtime} (results : PyVal) : Outcome PyVal :=
  obind (py_iter results) (fun rs =>
  obind (comprehension score_record rs) (fun out => Ok (PList out))).

(** [[float(x) for x in v]] *)
Definition floats `{Runtime} (v : PyVal) : Outcome PyVal :=
  obind (py_iter v) (fun xs =>
  obind (comprehension (fun x => obind (py_float x) (fun f => Ok (PFloat f))) xs)
        (fun out => Ok (PList out))).

Definition nested `{Runtime} (f : PyVal -> Outcome PyVal) (v : PyVal)
  : Outcome PyVal :=
  obind (py_iter v) (fun rs =>
  obind (comprehension f rs) (fun out => Ok (PList out))).

(** [out] is the normal form of the upstream result [r]: a tuple gives
    the record of its first element and of its second as a float, anything
    else (a record already) is kept. *)
Definition normalized `{Runtime} (r out : PyVal) : Prop :=
  match r with
  | PTuple (uid :: score :: _) =>
      exists f, py_float score = Ok f /\ out = record uid f
  | PTuple _ => False
  | _ => out = r
  end.

(** Upstream results the normalisation does not raise on. *)
Definition normalizable `{Runtime} (r : PyVal) : bool :=
  match r with
  | PTuple (uid :: score :: _) =>
      match py_float score with Ok _ => true | Raise _ => false end
  | PTuple _ => false
  | _ => true
  end.

(** The same for the results of a batch: one list per query. *)
Definition normalized_group `{Runtime} (group out : PyVal) : Prop :=
  exists rs outs, py_iter group = Ok rs /\ out = PList outs /\
                  Forall2 normalized rs outs.

(** [out] is the record the similarity family makes of the upstream
    element [r]: [r] unpacks into exactly an id and a score, and the score
    is passed through [float]. *)
Definition scored_pair `{Runtime} (r out : PyVal) : Prop :=
  exists uid score f,
    py_iter r = Ok [uid; score] /\ py_float score = Ok f /\ out = record uid f.

(** Upstream elements the similarity family does not raise on. *)
Definition scorable `{Runtime} (r : PyVal) : bool :=
  match py_iter r with
  | Ok [uid; score] =>
      match py_float score with Ok _ => true | Raise _ => false end
  | _ => false
  end.

(** The same for the results of a batch: one list per query. *)
Definition scored_group `{Runtime} (group out : PyVal) : Prop :=
  exists rs outs, py_iter group = Ok rs /\ out = PList outs /\
                  Forall2 scored_pair rs outs.

(** The result of one query of a batch can be iterated and each of its
    elements satisfies [p]. *)
Definition group_of (p : PyVal -> bool) (group : PyVal) : bool :=
  match py_iter group with
  | Ok rs => forallb p rs
  | Raise _ => false
  end.

(** ** Collaborators *)

(** The local index ([txtai.embeddings.Embeddings]). Reads leave it as it
    is; writes return the index they leave behind, also when they raise. *)
Class Embeddings (E : Type) := {
  emb_search : E -> PyVal -> Z -> Outcome PyVal;
  emb_batchsearch : E -> PyVal -> Z -> Outcome PyVal;
  emb_similarity : E -> PyVal -> PyVal -> Outcome PyVal;
  emb_batchsimilarity : E -> PyVal -> PyVal -> Outcome PyVal;
  emb_transform : E -> PyVal -> Outcome PyVal;
  emb_batchtransform : E -> PyVal -> Outcome PyVal;
  emb_count : E -> Outcome Z;
  emb_scoring : E -> bool;
  emb_score : E -> option (list PyVal) -> Outcome unit * E;
  emb_index : E -> option (list PyVal) -> Outcome unit * E;
  emb_upsert : E -> option (list PyVal) -> Outcome unit * E;
  emb_delete : E -> PyVal -> Outcome PyVal * E;
  emb_save : E -> PyVal -> Outcome unit * E
}.

(** The cluster of shards ([txtai.api.cluster.Cluster]). *)
Class Cluster (C : Type) := {
  cl_search : C -> PyVal -> Z -> Outcome PyVal;
  cl_batchsearch : C -> PyVal -> Z -> Outcome PyVal;
  cl_count : C -> Outcome PyVal;
  cl_add : C -> PyVal -> Outcome unit * C;
  cl_index : C -> Outcome unit * C;
  cl_upsert : C -> Outcome unit * C;
  cl_delete : C -> PyVal -> Outcome PyVal * C
}.

(** What a call of the gateway did, in order. *)
Inductive Event :=
| ClusterCall (op : string)
| LocalCall (op : string)
| PipelineCall (name : string)
| Acquire
| Release
| BufferNew
| BufferAdd (n : nat)
| BufferClose.

Definition is_local (ev : Event) : bool :=
  match ev with
  | LocalCall _ | BufferNew | BufferAdd _ | BufferClose => true
  | _ => false
  end.

Definition is_cluster (ev : Event) : bool :=
  match ev with
  | ClusterCall _ => true
  | _ => false
  end.

(** [request.query_params.get("limit") if request else None] *)
Definition limit_param (request : option (gmap string string)) : PyVal :=
  match request with
  | Some params => from_option PStr PNone (params !! "limit")
  | None => PNone
  end.

Definition is_lock_event (ev : Event) : bool :=
  match ev with
  | Acquire | Release => true
  | _ => false
  end.

Section Gateway.
Context `{RT : Runtime} {E C : Type} `{EO : !Embeddings E} `{CO : !Cluster C}.

(** The fields of an [API] instance. [documents] is the [Documents]
    stream: the documents added so far, in order; its length is what
    [len(self.documents)] returns. [lock] tells whether the write lock is
    held; [trace] records the calls made so far. *)
Record API := mkAPI {
  config : gmap string PyVal;
  documents : option (list PyVal);
  embeddings : option E;
  cluster : option C;
  lock : bool;
  pipelines : gmap string Obj;
  workflows : gmap string Obj;
  trace : list Event
}.

Definition set_documents (d : option (list PyVal)) (s : API) : API :=
  mkAPI (config s) d (embeddings s) (cluster s) (lock s)
        (pipelines s) (workflows s) (trace s).
Definition set_embeddings (e : option E) (s : API) : API :=
  mkAPI (config s) (documents s) e (cluster s) (lock s)
        (pipelines s) (workflows s) (trace s).
Definition set_cluster (c : option C) (s : API) : API :=
  mkAPI (config s) (documents s) (embeddings s) c (lock s)
        (pipelines s) (workflows s) (trace s).
Definition set_lock (b : bool) (s : API) : API :=
  mkAPI (config s) (documents s) (embeddings s) (cluster s) b
        (pipelines s) (workflows s) (trace s).
Definition emit (ev : Event) (s : API) : API :=
  mkAPI (config s) (documents s) (embeddings s) (cluster s) (lock s)
        (pipelines s) (workflows s) (trace s ++ [ev]).

(** *** The monad of gateway methods: state and exceptions *)

Definition M (A : Type) : Type := API -> Outcome A * API.

#[export] Instance M_ret : MRet M := fun A a s => (Ok a, s).
#[export] Instance M_bind : MBind M := fun A B k m s =>
  match m s with
  | (Ok a, s') => k a s'
  | (Raise e, s') => (Raise e, s')
  end.

Definition get : M API := fun s => (Ok s, s).
Definition lift {A} (o : Outcome A) : M A := fun s => (o, s).
Definition modify (f : API -> API) : M unit := fun s => (Ok tt, f s).
Definition log (ev : Event) : M unit := modify (emit ev).

(** [self.config.get(key)] *)
Definition config_get (s : API) (key : string) : PyVal :=
  default PNone (config s !! key).

(** Modelled from the spec: the [Documents] buffer, a class of the
    embeddings package: an ordered, append-only staging area for the
    documents pending indexing, absent until the first add and reset to
    absent after a flush. Its truth value is that of its length, which
    [add] reads with [len(self.documents)]. *)
Definition documents_truthy (s : API) : bool :=
  match documents s with
  | Some (_ :: _) => true
  | _ => false
  end.

(** A method call on the cluster: the call is recorded and the cluster
    is left in the state the call produced. *)
Definition cluster_call {A} (op : string) (r : Outcome A * C) : M A :=
  fun s => (r.1, set_cluster (Some r.2) (emit (ClusterCall op) s)).
Definition cluster_read {A} (op : string) (r : Outcome A) : M A :=
  fun s => (r, emit (ClusterCall op) s).
Definition local_call {A} (op : string) (r : Outcome A * E) : M A :=
  fun s => (r.1, set_embeddings (Some r.2) (emit (LocalCall op) s)).
Definition local_read {A} (op : string) (r : Outcome A) : M A :=
  fun s => (r, emit (LocalCall op) s).

(** [with self.lock: body]: waits while the lock is held; the lock is
    released when the body returns and when it raises. *)
Definition with_lock {A} (body : M A) : M A := fun s =>
  if lock s then (Raise WouldBlock, s)
  else
    let '(r, s') := body (emit Acquire (set_lock true s)) in
    (r, emit Release (set_lock false s')).

(** *** [API.search] and [API.batchsearch] *)

(** [request] is the FastAPI request (its query parameters) or [None]. *)
Definition search (query : PyVal) (request : option (gmap string string))
  : M PyVal :=
  lim ← lift (limit (limit_param request));
  s ← get;
  match cluster s with
  | Some c => cluster_read "search" (cl_search c query lim)
  | None =>
      match embeddings s with
      | Some e =>
          results ← local_read "search" (emb_search e query lim);
          lift (unpack_results results)
      | None => mret PNone
      end
  end.

Definition batchsearch (queries : PyVal) (lim : PyVal) : M PyVal :=
  s ← get;
  match cluster s with
  | Some c =>
      n ← lift (limit lim);
      cluster_read "batchsearch" (cl_batchsearch c queries n)
  | None =>
      match embeddings s with
      | Some e =>
          n ← lift (limit lim);
          found ← local_read "batchsearch" (emb_batchsearch e queries n);
          lift (nested unpack_results found)
      | None => mret PNone
      end
  end.

(** *** [API.count] *)

Definition count : M PyVal :=
  s ← get;
  match cluster s with
  | Some c => cluster_read "count" (cl_count c)
  | None =>
      match embeddings s with
      | Some e => n ← local_read "count" (emb_count e); mret (PInt n)
      | None => mret PNone
      end
  end.

(** *** [API.add] *)

(** [v + n] for an integer [n]. *)
Definition py_add (v : PyVal) (n : Z) : Outcome PyVal :=
  match v with
  | PInt z => Ok (PInt (z + n))
  | PBool b => Ok (PInt ((if b then 1 else 0) + n))
  | PFloat f => Ok (PFloat (f + float_of_Z n))
  | _ => Raise TypeError
  end.

(** The loop of [add] over the input documents: [index] is the
    autosequence counter and [batch] the tuples built so far. *)
Fixpoint add_loop (index : PyVal) (batch : list PyVal) (docs : list PyVal)
  : Outcome (list PyVal) :=
  match docs with
  | [] => Ok batch
  | document :: rest =>
      match document with
      | PDict d =>
          match dict_get d "id" with
          | Some uid =>
              add_loop index (batch ++ [PTuple [uid; document; PNone]]) rest
          | None => Raise (KeyError "id")
          end
      | PStr _ =>
          obind (py_add index 1) (fun index' =>
          add_loop index' (batch ++ [PTuple [index; document; PNone]]) rest)
      | PTuple l =>
          if (length l <? 3)%nat then
            match l with
            | a :: b :: _ =>
                add_loop index (batch ++ [PTuple [a; b; PNone]]) rest
            | _ => Raise IndexError
            end
          else add_loop index (batch ++ [document]) rest
      | _ => add_loop index (batch ++ [document]) rest
      end
  end.

(** Modelled from the spec: [self.documents = Documents()], a new and
    empty buffer. *)
Definition open_documents : M unit :=
  modify (set_documents (Some []));; log BufferNew.

(** Modelled from the spec: [self.documents.add(batch)], which appends the
    batch to the buffer. *)
Definition documents_add (batch : list PyVal) : M unit :=
  s ← get;
  match documents s with
  | Some buffered =>
      modify (set_documents (Some (buffered ++ batch)));;
      log (BufferAdd (length batch))
  | None => lift (Raise AttributeError)
  end.

Definition add (docs : PyVal) : M PyVal :=
  s ← get;
  match cluster s with
  | Some c => cluster_call "add" (cl_add c docs)
  | None =>
      if bool_decide (is_Some (embeddings s)) && py_truthy (config_get s "writable")
      then
        with_lock (
          s ← get;
          (if documents_truthy s then mret tt else open_documents);;
          n ← count;
          s ← get;
          index ← lift (py_add n (Z.of_nat (length (default [] (documents s)))));
          items ← lift (py_iter docs);
          batch ← lift (add_loop index [] items);
          documents_add batch)
      else mret tt
  end;;
  mret docs.

(** *** [API.index], [API.upsert] and [API.delete] *)

(** [self.embeddings] as the receiver of a method call. *)
Definition the_embeddings : M E :=
  s ← get;
  match embeddings s with
  | Some e => mret e
  | None => lift (Raise AttributeError)
  end.

(** [self.embeddings.save(self.config["path"])] when a path is set. *)
Definition save_if_path : M unit :=
  s ← get;
  if py_truthy (config_get s "path") then
    e ← the_embeddings;
    local_call "save" (emb_save e (config_get s "path"))
  else mret tt.

(** Modelled from the spec: [self.documents.close()], which discards the
    buffered documents; [self.documents = None] follows it. *)
Definition reset_documents : M unit :=
  s ← get;
  match documents s with
  | Some _ => log BufferClose;; modify (set_documents None)
  | None => lift (Raise AttributeError)
  end.

Definition index : M unit :=
  s ← get;
  match cluster s with
  | Some c => cluster_call "index" (cl_index c)
  | None =>
      if bool_decide (is_Some (embeddings s))
         && py_truthy (config_get s "writable")
         && documents_truthy s
      then
        with_lock (
          e ← the_embeddings;
          (if emb_scoring e then
             s ← get; local_call "score" (emb_score e (documents s))
           else mret tt);;
          e ← the_embeddings;
          s ← get;
          local_call "index" (emb_index e (documents s));;
          save_if_path;;
          reset_documents)
      else mret tt
  end.

Definition upsert : M unit :=
  s ← get;
  match cluster s with
  | Some c => cluster_call "upsert" (cl_upsert c)
  | None =>
      if bool_decide (is_Some (embeddings s))
         && py_truthy (config_get s "writable")
         && documents_truthy s
      then
        with_lock (
          e ← the_embeddings;
          s ← get;
          local_call "upsert" (emb_upsert e (documents s));;
          save_if_path;;
          reset_documents)
      else mret tt
  end.

Definition delete (ids : PyVal) : M PyVal :=
  s ← get;
  match cluster s with
  | Some c => cluster_call "delete" (cl_delete c ids)
  | None =>
      if bool_decide (is_Some (embeddings s))
         && py_truthy (config_get s "writable")
      then
        with_lock (
          e ← the_embeddings;
          local_call "delete" (emb_delete e ids))
      else mret PNone
  end.

(** *** [API.similarity], [API.batchsimilarity], [API.transform] and
    [API.batchtransform] *)

(** [self.pipelines[name]] called on the unpacked arguments. *)
Definition call_pipeline (name : string) (args : list PyVal) : M PyVal :=
  s ← get;
  match pipelines s !! name with
  | Some p => log (PipelineCall name);; lift (pipeline_call p args)
  | None => lift (Raise (KeyError name))
  end.

Definition similarity (query texts : PyVal) : M PyVal :=
  s ← get;
  if bool_decide (is_Some (pipelines s !! "similarity")) then
    results ← call_pipeline "similarity" [query; texts];
    lift (score_records results)
  else
    match embeddings s with
    | Some e =>
        results ← local_read "similarity" (emb_similarity e query texts);
        lift (score_records results)
    | None => mret PNone
    end.

Definition batchsimilarity (queries texts : PyVal) : M PyVal :=
  s ← get;
  if bool_decide (is_Some (pipelines s !! "similarity")) then
    results ← call_pipeline "similarity" [queries; texts];
    lift (nested score_records results)
  else
    match embeddings s with
    | Some e =>
        results ← local_read "batchsimilarity"
                             (emb_batchsimilarity e queries texts);
        lift (nested score_records results)
    | None => mret PNone
    end.

Definition transform (text : PyVal) : M PyVal :=
  s ← get;
  match embeddings s with
  | Some e =>
      v ← local_read "transform" (emb_transform e (PTuple [PNone; text; PNone]));
      lift (floats v)
  | None => mret PNone
  end.

Definition batchtransform (texts : PyVal) : M PyVal :=
  s ← get;
  match embeddings s with
  | Some e =>
      items ← lift (py_iter texts);
      let docs := map (fun text => PTuple [PNone; text; PNone]) items in
      vs ← local_read "batchtransform" (emb_batchtransform e (PList docs));
      lift (nested floats vs)
  | None => mret PNone
  end.

(** *** [API.label] *)

Definition label (text labels : PyVal) : M PyVal :=
  s ← get;
  if bool_decide (is_Some (pipelines s !! "labels")) then
    results ← call_pipeline "labels" [text; labels];
    match text with
    | PStr _ => lift (score_records results)
    | _ => lift (nested score_records results)
    end
  else mret PNone.

(** *** [API.pipeline] and [API.workflow] *)

Definition pipeline (name : string) (args : PyVal) : M PyVal :=
  s ← get;
  if bool_decide (is_Some (pipelines s !! name)) then
    items ← lift (py_iter args);
    call_pipeline name items
  else mret PNone.

(** Running a workflow object over the elements; it may call back into
    the gateway, so it acts on the gateway's state. *)
Variable workflow_call : Obj -> list PyVal -> M PyVal.

(** [tuple(element) if isinstance(element, list) else element] *)
Definition as_tuple (element : PyVal) : PyVal :=
  match element with
  | PList l => PTuple l
  | _ => element
  end.

Definition workflow (name : string) (elements : PyVal) : M PyVal :=
  items ← lift (py_iter elements);
  s ← get;
  match workflows s !! name with
  | Some w => workflow_call w (map as_tuple items)
  | None => lift (Raise (KeyError name))
  end.

(** *** [API.function] and [API.resolve] *)

(** [function in self.pipelines] hashes its argument; the registry's keys
    are strings. *)
Definition function (s : API) (f : PyVal) : Outcome Obj :=
  match f with
  | PStr name =>
      match pipelines s !! name with
      | Some p => Ok p
      | None => factory_create f
      end
  | _ => if py_hashable f then factory_create f else Raise TypeError
  end.

(** [a in ["index", "upsert"]] *)
Definition indexing_action (a : PyVal) : bool :=
  match a with
  | PStr name => String.eqb name "index" || String.eqb name "upsert"
  | _ => false
  end.

(** [self.upsert if a == "upsert" else self.index] *)
Definition finalizer (a : PyVal) : PyVal :=
  match a with
  | PStr name => if String.eqb name "upsert" then PObj BoundUpsert
                 else PObj BoundIndex
  | _ => PObj BoundIndex
  end.

(** A task descriptor: the dict [resolve] updates in place. *)
Abbreviation Task := (gmap string PyVal).

(** The loop of [resolve] over the action names; the task is updated as
    the loop goes, and keeps those updates when a later name raises. *)
Fixpoint resolve_actions (s : API) (values actions : list PyVal) (task : Task)
  : Outcome (list PyVal) * Task :=
  match values with
  | [] => (Ok actions, task)
  | a :: rest =>
      if indexing_action a then
        resolve_actions s rest (actions ++ [PObj BoundAdd])
          (<["finalize" := finalizer a]> (<["unpack" := PBool false]> task))
      else
        match function s a with
        | Ok f => resolve_actions s rest (actions ++ [PObj f]) task
        | Raise e => (Raise e, task)
        end
  end.

Definition resolve_action (s : API) (task : Task) : Outcome unit * Task :=
  match task !! "action" with
  | Some action =>
      let values := match action with PList l => l | _ => [action] end in
      match resolve_actions s values [] task with
      | (Ok actions, task') =>
          (Ok tt,
           <["action" := match action with
                         | PList _ => PList actions
                         | _ => default PNone (head actions)
                         end]> task')
      | (Raise e, task') => (Raise e, task')
      end
  | None => (Ok tt, task)
  end.

(** [if key in task and isinstance(task[key], str):
       task[key] = self.function(task[key])] *)
Definition resolve_entry (s : API) (key : string) (task : Task)
  : Outcome unit * Task :=
  match task !! key with
  | Some (PStr name) =>
      match function s (PStr name) with
      | Ok f => (Ok tt, <[key := PObj f]> task)
      | Raise e => (Raise e, task)
      end
  | _ => (Ok tt, task)
  end.

(** What the action name [a] is resolved to: the gateway's [add] for
    [index] and [upsert], what [function] returns for any other name. *)
Definition resolved_as (s : API) (a f : PyVal) : Prop :=
  if indexing_action a then f = PObj BoundAdd
  else exists o, function s a = Ok o /\ f = PObj o.

Definition resolve (s : API) (task : Task) : Outcome unit * Task :=
  match resolve_action s task with
  | (Ok _, task1) =>
      match resolve_entry s "initialize" task1 with
      | (Ok _, task2) => resolve_entry s "finalize" task2
      | r => r
      end
  | r => r
  end.
End Gateway.

Arguments API : clear implicits.
Arguments M : clear implicits.

(** ** The shape of buffered documents *)

(** Number of bare texts among the documents. *)
Fixpoint texts (docs : list PyVal) : Z :=
  match docs with
  | [] => 0
  | PStr _ :: rest => 1 + texts rest
  | _ :: rest => texts rest
  end.

(** Documents [add] takes without raising: a record has an [id], a tuple
    has at least two elements. *)
Definition addable (doc : PyVal) : bool :=
  match doc with
  | PDict d => bool_decide (is_Some (dict_get d "id"))
  | PTuple l => (2 <=? length l)%nat
  | _ => true
  end.

(** [out] is what [doc] is buffered as when [next] is the value of the
    autosequence counter: a record keeps its own id, a text gets [next], a
    pair is padded with [None], anything else is kept as it is. *)
Definition canonical (next : Z) (doc out : PyVal) : Prop :=
  match doc with
  | PDict d =>
      exists uid, dict_get d "id" = Some uid /\ out = PTuple [uid; doc; PNone]
  | PStr _ => out = PTuple [PInt next; doc; PNone]
  | PTuple [a; b] => out = PTuple [a; b; PNone]
  | _ => out = doc
  end.

(** The index as [index] hands it to [self.embeddings.index]: after the
    scoring pass when the index asks for one. *)
Definition scored {E} `{!Embeddings E} (e : E) (docs : option (list PyVal))
  : Outcome unit * E :=
  if emb_scoring e then emb_score e docs else (Ok tt, e).

(** ** What a call left alone *)

(** The events are one section under the write lock: an [Acquire], events
    that are no lock events, a [Release]. *)
Definition locked_section (evs : list Event) : bool :=
  match evs with
  | Acquire :: rest =>
      match rev rest with
      | Release :: mid => forallb (fun ev => negb (is_lock_event ev)) mid
      | _ => false
      end
  | _ => false
  end.

(** The events of one call are guarded by the write lock: either nothing
    local happened at all, or everything happened between one [Acquire]
    and the matching [Release]. *)
Definition guarded (evs : list Event) : bool :=
  forallb (fun ev => negb (is_local ev) && negb (is_lock_event ev)) evs
  || locked_section evs.

(** The call worked on the local side, under the lock. *)
Definition acts_locally (evs : list Event) : bool :=
  locked_section evs && existsb is_local evs.

Section Footprint.
Context {E C : Type}.

(** The events [s'] has recorded since [s]. *)
Definition events_since (s s' : API E C) (evs : list Event) : Prop :=
  trace s' = trace s ++ evs.

(** Nothing local was used: buffer, index, lock and configuration are as
    they were and every recorded call went to the cluster. *)
Definition cluster_only (s s' : API E C) : Prop :=
  documents s' = documents s /\ embeddings s' = embeddings s /\
  lock s' = lock s /\ config s' = config s /\
  exists evs, events_since s s' evs /\ forallb is_cluster evs = true.
End Footprint.

(** ** Threads calling [add], [index], [upsert] and [delete] on one gateway *)

(** The two flushes. *)
Inductive Flush := Index | Upsert.

Section Threads.
Context `{RT : Runtime} {E C : Type} `{EO : !Embeddings E} `{CO : !Cluster C}.

(** Where a thread stands inside the method it called. Each constructor
    is the statement the thread executes next; what it has already
    computed is kept with it. [Enter] to [Appending] are the statements of
    [add(docs)], [FlushEnter] to [Closing] those of [index()] and
    [upsert()], [DeleteEnter] to [Deleting] those of [delete(ids)]. *)
Inductive Pc :=
| Enter (docs : PyVal)
| Locking (docs : PyVal)
| Checking (docs : PyVal)
| Creating (docs : PyVal)
| Counting (docs : PyVal)
| Building (docs : PyVal) (index : PyVal)
| Appending (docs : PyVal) (batch : list PyVal)
| FlushEnter (op : Flush)
| FlushLocking (op : Flush)
| Scoring
| Flushing (op : Flush)
| Saving (handed : option (list PyVal))
| Closing (handed : option (list PyVal))
| DeleteEnter (ids : PyVal)
| DeleteLocking (ids : PyVal)
| Deleting (ids : PyVal)
| Releasing (result : Outcome PyVal)
| Finished (result : Outcome PyVal).

(** The value a method without a return statement hands back. *)
Definition returns_none (r : Outcome unit) : Outcome PyVal :=
  obind r (fun _ => Ok PNone).

(** One statement of a method, executed atomically on the shared gateway.
    [None]: the thread cannot move (it waits for the lock, or it has
    returned). The test in front of [with self.lock] is a statement of its
    own: [index] and [upsert] read the buffer there, before they have the
    lock. *)
Definition thread_step (pc : Pc) (s : API E C) : option (Pc * API E C) :=
  match pc with
  | Enter docs =>
      match cluster s with
      | Some c =>
          let r := cluster_call "add" (cl_add c docs) s in
          Some (Finished (obind r.1 (fun _ => Ok docs)), r.2)
      | None =>
          if bool_decide (is_Some (embeddings s))
             && py_truthy (config_get s "writable")
          then Some (Locking docs, s)
          else Some (Finished (Ok docs), s)
      end
  | Locking docs =>
      if lock s then None
      else Some (Checking docs, emit Acquire (set_lock true s))
  | Checking docs =>
      Some (if documents_truthy s then Counting docs else Creating docs, s)
  | Creating docs => Some (Counting docs, (open_documents s).2)
  | Counting docs =>
      let r := (n ← count; s' ← get;
                lift (py_add n (Z.of_nat (length (default [] (documents s')))))) s in
      match r.1 with
      | Ok index => Some (Building docs index, r.2)
      | Raise e => Some (Releasing (Raise e), r.2)
      end
  | Building docs index =>
      match obind (py_iter docs) (add_loop index []) with
      | Ok batch => Some (Appending docs batch, s)
      | Raise e => Some (Releasing (Raise e), s)
      end
  | Appending docs batch =>
      let r := documents_add batch s in
      match r.1 with
      | Ok _ => Some (Releasing (Ok docs), r.2)
      | Raise e => Some (Releasing (Raise e), r.2)
      end
  | FlushEnter op =>
      match cluster s with
      | Some c =>
          let r := match op with
                   | Index => cluster_call "index" (cl_index c) s
                   | Upsert => cluster_call "upsert" (cl_upsert c) s
                   end in
          Some (Finished (returns_none r.1), r.2)
      | None =>
          if bool_decide (is_Some (embeddings s))
             && py_truthy (config_get s "writable")
             && documents_truthy s
          then Some (FlushLocking op, s)
          else Some (Finished (Ok PNone), s)
      end
  | FlushLocking op =>
      if lock s then None
      else Some (match op with Index => Scoring | Upsert => Flushing Upsert end,
                 emit Acquire (set_lock true s))
  | Scoring =>
      let r := (e ← the_embeddings;
                if emb_scoring e then
                  s' ← get; local_call "score" (emb_score e (documents s'))
                else mret tt) s in
      match r.1 with
      | Ok _ => Some (Flushing Index, r.2)
      | Raise e => Some (Releasing (Raise e), r.2)
      end
  | Flushing op =>
      let r := (e ← the_embeddings;
                s' ← get;
                match op with
                | Index => local_call "index" (emb_index e (documents s'))
                | Upsert => local_call "upsert" (emb_upsert e (documents s'))
                end) s in
      match r.1 with
      | Ok _ => Some (Saving (documents s), r.2)
      | Raise e => Some (Releasing (Raise e), r.2)
      end
  | Saving handed =>
      let r := save_if_path s in
      match r.1 with
      | Ok _ => Some (Closing handed, r.2)
      | Raise e => Some (Releasing (Raise e), r.2)
      end
  | Closing handed =>
      let r := reset_documents s in
      Some (Releasing (returns_none r.1), r.2)
  | DeleteEnter ids =>
      match cluster s with
      | Some c =>
          let r := cluster_call "delete" (cl_delete c ids) s in
          Some (Finished r.1, r.2)
      | None =>
          if bool_decide (is_Some (embeddings s))
             && py_truthy (config_get s "writable")
          then Some (DeleteLocking ids, s)
          else Some (Finished (Ok PNone), s)
      end
  | DeleteLocking ids =>
      if lock s then None
      else Some (Deleting ids, emit Acquire (set_lock true s))
  | Deleting ids =>
      let r := (e ← the_embeddings; local_call "delete" (emb_delete e ids)) s in
      Some (Releasing r.1, r.2)
  | Releasing result => Some (Finished result, emit Release (set_lock false s))
  | Finished _ => None
  end.

(** A thread running on its own for at most [fuel] statements. *)
Fixpoint thread_run (fuel : nat) (pc : Pc) (s : API E C) : Pc * API E C :=
  match fuel with
  | O => (pc, s)
  | S fuel' =>
      match thread_step pc s with
      | Some (pc', s') => thread_run fuel' pc' s'
      | None => (pc, s)
      end
  end.

(** The threads of the process and the gateway they share. *)
Definition Pool : Type := list Pc * API E C.

(** Thread [i] is scheduled for one statement; nothing happens when it
    cannot move. *)
Definition schedule_step (i : nat) (st : Pool) : Pool :=
  match st.1 !! i with
  | Some pc =>
      match thread_step pc st.2 with
      | Some (pc', s') => (<[i := pc']> st.1, s')
      | None => st
      end
  | None => st
  end.

(** An interleaving: the threads scheduled one after the other. *)
Definition interleave (schedule : list nat) (st : Pool) : Pool :=
  foldl (fun st i => schedule_step i st) st schedule.

(** Number of documents in the input of [add]. *)
Definition batch_size (docs : PyVal) : nat :=
  match py_iter docs with
  | Ok items => length items
  | _ => 0%nat
  end.

(** [len(self.documents)], 0 when there is no buffer. *)
Definition buffered (s : API E C) : nat := length (default [] (documents s)).

(** The thread is about to call one of the four methods. *)
Definition calling (pc : Pc) : bool :=
  match pc with
  | Enter _ | FlushEnter _ | DeleteEnter _ => true
  | _ => false
  end.

(** The thread is between acquiring and releasing the lock. *)
Definition critical (pc : Pc) : bool :=
  match pc with
  | Checking _ | Creating _ | Counting _ | Building _ _ | Appending _ _
  | Scoring | Flushing _ | Saving _ | Closing _ | Deleting _
  | Releasing _ => true
  | _ => false
  end.

(** The thread waits for the lock. *)
Definition waiting (pc : Pc) : bool :=
  match pc with
  | Locking _ | FlushLocking _ | DeleteLocking _ => true
  | _ => false
  end.

(** The thread is somewhere in [add], or has returned. *)
Definition adding (pc : Pc) : bool :=
  match pc with
  | Enter _ | Locking _ | Checking _ | Creating _ | Counting _
  | Building _ _ | Appending _ _ | Releasing _ | Finished _ => true
  | _ => false
  end.

(** Documents the thread has put into the buffer so far, on a gateway
    where [add] takes the local branch. *)
Definition committed (pc : Pc) : nat :=
  match pc with
  | Releasing (Ok docs) | Finished (Ok docs) => batch_size docs
  | _ => 0%nat
  end.

(** At most one thread is between [Acquire] and [Release]. *)
Definition exclusive (pool : list Pc) : Prop :=
  forall i j pci pcj,
    pool !! i = Some pci -> pool !! j = Some pcj ->
    critical pci = true -> critical pcj = true -> i = j.

(** Every thread has returned from its call without an exception. *)
Definition all_returned (inputs : list PyVal) (pool : list Pc) : Prop :=
  pool = (fun docs => Finished (Ok docs)) <$> inputs.

(** What a thread inside the lock may rely on. A flush that has handed
    the buffer to the index still finds that very buffer when it saves and
    when it resets. *)
Definition well_placed (pc : Pc) (s : API E C) : Prop :=
  match pc with
  | Creating _ => documents_truthy s = false
  | Counting _ | Building _ _ => is_Some (documents s)
  | Appending docs batch =>
      is_Some (documents s) /\ length batch = batch_size docs
  | Saving handed | Closing handed => documents s = handed
  | _ => True
  end.

(** The writes take their local branch. *)
Definition buffers_locally (s : API E C) : Prop :=
  cluster s = None /\ is_Some (embeddings s) /\
  py_truthy (config_get s "writable") = true.

(** The invariant of the interleavings of the four writes: the lock is
    held exactly while a thread is inside it, that thread is the only one,
    and every thread finds the buffer as it left it. *)
Definition pool_invariant (st : Pool) : Prop :=
  buffers_locally st.2 /\
  (lock st.2 = false ->
   forall j pc, st.1 !! j = Some pc -> critical pc = false) /\
  (lock st.2 = true ->
   exists j pc, st.1 !! j = Some pc /\ critical pc = true) /\
  exclusive st.1 /\
  (forall j pc, st.1 !! j = Some pc -> well_placed pc st.2).

(** The invariant of the interleavings of [add] alone; [base] is the
    length of the buffer the threads started from. *)
Definition adds_invariant (base : nat) (st : Pool) : Prop :=
  forallb adding st.1 = true /\
  buffered st.2 = (base + sum_list (committed <$> st.1))%nat.
End Threads.

(** ** A small instance of the collaborators, for concrete runs *)

(** Names of pipeline types the pipeline package ships. *)
Definition builtin_pipelines : list string :=
  ["extractor"; "labels"; "similarity"; "summary"; "textractor";
   "transcription"; "translation"].

Fixpoint position (name : string) (l : list string) (n : N) : option N :=
  match l with
  | [] => None
  | x :: l' => if String.eqb x name then Some n else position name l' (n + 1)%N
  end.

(** Modelled from the spec: [PipelineFactory.create], which lives in the
    pipeline package. It constructs a pipeline by name for the built-in
    pipeline types; what it cannot resolve raises, and so does an argument
    that is no name. *)
Definition stub_create (v : PyVal) : Outcome Obj :=
  match v with
  | PStr name =>
      match position name builtin_pipelines 100%N with
      | Some h => Ok (PipelineObj h)
      | None => Raise (KeyError name)
      end
  | _ => Raise TypeError
  end.

#[local] Instance stub_runtime : Runtime := {|
  float_of_str := fun _ => Raise ValueError;
  factory_create := stub_create;
  pipeline_call := fun p args => Ok (PList args)
|}.

(** An index that keeps the documents it was given, answers every search
    with [hits], and whose [save] fails when [disk_full]. *)
Record StubIndex := mkStubIndex {
  stored : list PyVal;
  hits : PyVal;
  disk_full : bool
}.

Definition stub_store (keep : bool) (e : StubIndex) (docs : option (list PyVal))
  : Outcome unit * StubIndex :=
  match docs with
  | Some l =>
      (Ok tt, mkStubIndex ((if keep then stored e else []) ++ l) (hits e) (disk_full e))
  | None => (Raise TypeError, e)
  end.

#[local] Instance stub_embeddings : Embeddings StubIndex := {|
  emb_search := fun e _ _ => Ok (hits e);
  emb_batchsearch := fun e _ _ => Ok (PList [hits e]);
  emb_similarity := fun e _ _ => Ok (hits e);
  emb_batchsimilarity := fun e _ _ => Ok (PList [hits e]);
  emb_transform := fun e _ => Ok (PList [PFloat 0.5; PInt 1]);
  emb_batchtransform := fun e _ => Ok (PList [PList [PFloat 0.5; PInt 1]]);
  emb_count := fun e => Ok (Z.of_nat (length (stored e)));
  emb_scoring := fun _ => false;
  emb_score := fun e _ => (Ok tt, e);
  emb_index := stub_store false;
  emb_upsert := stub_store true;
  emb_delete := fun e ids => (Ok ids, e);
  emb_save := fun e _ =>
    if disk_full e then (Raise (ExternalError "save"), e) else (Ok tt, e)
|}.

(** A cluster that only remembers which operations were forwarded. *)
Definition StubCluster := list string.

#[local] Instance stub_cluster : Cluster StubCluster := {|
  cl_search := fun _ _ _ => Ok (PList []);
  cl_batchsearch := fun _ _ _ => Ok (PList []);
  cl_count := fun c => Ok (PInt 7);
  cl_add := fun c _ => (Ok tt, c ++ ["add"]);
  cl_index := fun c => (Ok tt, c ++ ["index"]);
  cl_upsert := fun c => (Ok tt, c ++ ["upsert"]);
  cl_delete := fun c ids => (Ok ids, c ++ ["delete"])
|}.

Definition stub_index : StubIndex := mkStubIndex [] (PList []) false.

(** An index that answers with two (id, score) pairs. *)
Definition pairs_index : StubIndex :=
  mkStubIndex []
    (PList [PTuple [PInt 1; PFloat 0.9]; PTuple [PInt 2; PFloat 0.5]]) false.

(** A gateway over the stub collaborators. *)
Definition gateway (cfg : gmap string PyVal) (e : option StubIndex)
    (c : option StubCluster) : API StubIndex StubCluster :=
  mkAPI cfg None e c false ∅ ∅ [].

(** A workflow that hands its elements back. *)
Definition stub_workflow_call (w : Obj) (items : list PyVal)
  : M StubIndex StubCluster PyVal :=
  fun s => (Ok (PList items), s).

Definition writable_config : gmap string PyVal := {["writable" := PBool true]}.

Definition stored_config : gmap string PyVal :=
  <["path" := PStr "/data/index"]> writable_config.

(** An index whose disk is full. *)
Definition full_index : StubIndex := mkStubIndex [] (PList []) true.

(** A gateway over the stub index with documents already buffered. *)
Definition buffering (cfg : gmap string PyVal) (e : StubIndex)
    (docs : list PyVal) : API StubIndex StubCluster :=
  mkAPI cfg (Some docs) (Some e) None false ∅ ∅ [].

(** * Properties *)

(** ** [limit] *)

Lemma limit_range (v : PyVal) (n : Z) : limit v = Ok n -> 1 <= n <= 250.
Proof.
  unfold limit. destruct (if py_truthy v then py_int v else Ok 10); [|done..].
  intros [= <-]. lia.
Qed.

Example limit_none : limit PNone = Ok 10. Proof. reflexivity. Qed.
Example limit_zero : limit (PInt 0) = Ok 10. Proof. reflexivity. Qed.
Example limit_five : limit (PInt 5) = Ok 5. Proof. reflexivity. Qed.
Example limit_big : limit (PInt 1000) = Ok 250. Proof. reflexivity. Qed.
Example limit_neg : limit (PInt (-3)) = Ok 1. Proof. reflexivity. Qed.
Example limit_empty_text : limit (PStr "") = Ok 10. Proof. reflexivity. Qed.
Example limit_text : limit (PStr " 42 ") = Ok 42. Proof. reflexivity. Qed.
Example limit_text_zero : limit (PStr "0") = Ok 1. Proof. reflexivity. Qed.

(** C5, as stated, fails: [limit] does not return for every input. The
    [limit] query parameter of [search] arrives as text, and on text that
    is no integer literal [int] raises [ValueError]. *)
Lemma limit_text_raises :
  limit (PStr "abc") = Raise ValueError /\
  ~ (forall v : PyVal, exists n, limit v = Ok n /\ 1 <= n <= 250).
Proof.
  split; [reflexivity|].
  intros H. destruct (H (PStr "abc")) as (n & Hn & _). discriminate Hn.
Qed.

(** C5 (amended): on an absent or falsy argument [limit] returns 10; on
    any other argument it returns what [int] makes of it clamped to
    [1, 250] (the value itself inside the range, 250 above it, 1 below
    it), and raises what [int] raises when the argument is no integer.
    Whatever it returns lies in [1, 250], and the five listed calls give
    10, 10, 5, 250 and 1. *)
Theorem limit_spec (v : PyVal) :
  (py_truthy v = false -> limit v = Ok 10) /\
  (py_truthy v = true ->
     (forall e, py_int v = Raise e -> limit v = Raise e) /\
     (forall n, py_int v = Ok n ->
        exists r, limit v = Ok r /\ 1 <= r <= 250 /\
                  (1 <= n <= 250 -> r = n) /\
                  (250 < n -> r = 250) /\
                  (n < 1 -> r = 1))) /\
  (forall r, limit v = Ok r -> 1 <= r <= 250) /\
  limit PNone = Ok 10 /\ limit (PInt 0) = Ok 10 /\ limit (PInt 5) = Ok 5 /\
  limit (PInt 1000) = Ok 250 /\ limit (PInt (-3)) = Ok 1.
Proof.
  split; [|split; [|split]].
  - unfold limit. intros ->. reflexivity.
  - unfold limit. intros ->. split.
    + intros e ->. reflexivity.
    + intros n ->. exists (Z.max 1 (Z.min 250 n)).
      split; [reflexivity|]. lia.
  - apply limit_range.
  - repeat split.
Qed.

Lemma limit_spec_witness :
  py_truthy (PStr "1000") = true /\ py_int (PStr "1000") = Ok 1000 /\
  exists r, limit (PStr "1000") = Ok r /\ r = 250.
Proof.
  split; [reflexivity|]. split; [reflexivity|].
  destruct (limit_spec (PStr "1000")) as (_ & H & _).
  destruct (H eq_refl) as (_ & Hn).
  destruct (Hn 1000 eq_refl) as (r & Hr & _ & _ & Hbig & _).
  exists r. split; [exact Hr|]. apply Hbig. lia.
Defined.

(** ** Tactics *)

(** Unfolds the methods down to pairs of outcome and state. *)
Ltac run :=
  unfold search, batchsearch, add, index, upsert, delete,
    similarity, batchsimilarity, transform, batchtransform, label,
    pipeline, workflow, call_pipeline, count, with_lock,
    save_if_path, reset_documents, documents_add, open_documents,
    the_embeddings, local_call, local_read, cluster_call, cluster_read,
    log, modify, mbind, M_bind, mret, M_ret, get, lift;
  unfold config_get, documents_truthy in *; cbn.

(** Simplifies, using the equations at hand on the fields of the state. *)
Ltac rw :=
  repeat (progress (cbn;
    repeat match goal with
           | H : ?x = _ |- context [?x] => rewrite H
           end)).

(** Gives the events a call recorded, once the trace is a chain of
    appends. *)
Ltac events :=
  unfold events_since; cbn; rewrite <- ?app_assoc; cbn;
  eexists; split; [reflexivity|cbn; try reflexivity].

(** Destructs the outcome of the call to a collaborator that the goal is
    waiting for. *)
Ltac outcome :=
  match goal with
  | |- context [emb_scoring ?e] => destruct (emb_scoring e) eqn:?
  | |- context [emb_score ?e ?d] => destruct (emb_score e d) as [[[]|] ?] eqn:?
  | |- context [emb_index ?e ?d] => destruct (emb_index e d) as [[[]|] ?] eqn:?
  | |- context [emb_upsert ?e ?d] => destruct (emb_upsert e d) as [[[]|] ?] eqn:?
  | |- context [emb_save ?e ?d] => destruct (emb_save e d) as [[[]|] ?] eqn:?
  | |- context [emb_delete ?e ?d] => destruct (emb_delete e d) as [[|] ?] eqn:?
  | |- context [emb_count ?e] => destruct (emb_count e) eqn:?
  | |- context [py_truthy (default PNone (config ?s !! ?k))] =>
      destruct (py_truthy (default PNone (config s !! k))) eqn:?
  | |- context [py_iter ?d] => destruct (py_iter d) eqn:?
  | |- context [add_loop ?i ?b ?l] => destruct (add_loop i b l) eqn:?
  end.

(** ** The dispatch between cluster and local index *)

Section Dispatch.
Context `{RT : Runtime} {E C : Type} `{EO : !Embeddings E} `{CO : !Cluster C}.
Implicit Types s : API E C.

Lemma cluster_only_refl s : cluster_only s s.
Proof.
  repeat split. exists []. split; [|reflexivity].
  unfold events_since. by rewrite app_nil_r.
Qed.

Lemma cluster_only_read {A} s op (r : Outcome A) :
  cluster_only s (cluster_read op r s).2.
Proof. repeat split. by exists [ClusterCall op]. Qed.

Lemma cluster_only_call {A} s op (r : Outcome A * C) :
  cluster_only s (cluster_call op r s).2.
Proof. repeat split. by exists [ClusterCall op]. Qed.

Lemma cluster_only_lift {A B} s (o : Outcome A) (k : A -> M E C B) :
  (forall a, cluster_only s (k a s).2) ->
  cluster_only s ((lift o ≫= k) s).2.
Proof.
  intros H. unfold mbind, M_bind, lift.
  destruct o; cbn; auto using cluster_only_refl.
Qed.

Lemma search_cluster s c q r : cluster s = Some c ->
  search q r s = (lim ← lift (limit (limit_param r));
                  cluster_read "search" (cl_search c q lim)) s.
Proof. intros Hc. run. destruct (limit _); cbn; by rewrite ?Hc. Qed.

Lemma batchsearch_cluster s c qs l : cluster s = Some c ->
  batchsearch qs l s = (n ← lift (limit l);
                        cluster_read "batchsearch" (cl_batchsearch c qs n)) s.
Proof. intros Hc. run. by rewrite Hc. Qed.

Lemma add_cluster s c d : cluster s = Some c ->
  add d s = (cluster_call "add" (cl_add c d);; mret d) s.
Proof. intros Hc. run. by rewrite Hc. Qed.

Lemma index_cluster s c : cluster s = Some c ->
  index s = cluster_call "index" (cl_index c) s.
Proof. intros Hc. run. by rewrite Hc. Qed.

Lemma upsert_cluster s c : cluster s = Some c ->
  upsert s = cluster_call "upsert" (cl_upsert c) s.
Proof. intros Hc. run. by rewrite Hc. Qed.

Lemma delete_cluster s c ids : cluster s = Some c ->
  delete ids s = cluster_call "delete" (cl_delete c ids) s.
Proof. intros Hc. run. by rewrite Hc. Qed.

Lemma count_cluster s c : cluster s = Some c ->
  count s = cluster_read "count" (cl_count c) s.
Proof. intros Hc. run. by rewrite Hc. Qed.

(** No cluster, a local index: reads *)
Lemma search_local s e q r : cluster s = None -> embeddings s = Some e ->
  search q r s = (lim ← lift (limit (limit_param r));
                  results ← local_read "search" (emb_search e q lim);
                  lift (unpack_results results)) s.
Proof. intros Hc He. run. destruct (limit _); cbn; by rewrite ?Hc, ?He. Qed.

Lemma batchsearch_local s e qs l : cluster s = None -> embeddings s = Some e ->
  batchsearch qs l s = (n ← lift (limit l);
                        found ← local_read "batchsearch" (emb_batchsearch e qs n);
                        lift (nested unpack_results found)) s.
Proof. intros Hc He. run. by rewrite Hc, He. Qed.

Lemma count_local s e : cluster s = None -> embeddings s = Some e ->
  count s = (n ← local_read "count" (emb_count e); mret (PInt n)) s.
Proof. intros Hc He. run. by rewrite Hc, He. Qed.

(** No cluster, a local index: writes need a writable configuration *)
Lemma delete_local s e ids : cluster s = None -> embeddings s = Some e ->
  py_truthy (config_get s "writable") = true ->
  delete ids s = with_lock (local_call "delete" (emb_delete e ids)) s.
Proof.
  intros Hc He Hw. run. rw. destruct (lock s); [done|]. by rw.
Qed.

Lemma add_acts_locally s e d : cluster s = None -> embeddings s = Some e ->
  py_truthy (config_get s "writable") = true -> lock s = false ->
  exists evs, events_since s (add d s).2 evs /\ acts_locally evs = true.
Proof.
  intros Hc He Hw Hl. run. rw.
  destruct (documents s) as [[|]|] eqn:Hd; rw;
  destruct (emb_count e); rw; try (events; fail);
  destruct (py_iter d); rw; try (events; fail);
  match goal with |- context [add_loop ?i ?b ?l] => destruct (add_loop i b l) end;
  rw; events.
Qed.

Lemma index_acts_locally s e : cluster s = None -> embeddings s = Some e ->
  py_truthy (config_get s "writable") = true ->
  documents_truthy s = true -> lock s = false ->
  exists evs, events_since s (index s).2 evs /\ acts_locally evs = true.
Proof.
  intros Hc He Hw Hd Hl. run.
  destruct (documents s) as [[|]|] eqn:Hb; [done| |done]. rw.
  repeat (outcome; rw); events.
Qed.

Lemma upsert_acts_locally s e : cluster s = None -> embeddings s = Some e ->
  py_truthy (config_get s "writable") = true ->
  documents_truthy s = true -> lock s = false ->
  exists evs, events_since s (upsert s).2 evs /\ acts_locally evs = true.
Proof.
  intros Hc He Hw Hd Hl. run.
  destruct (documents s) as [[|]|] eqn:Hb; [done| |done]. rw.
  repeat (outcome; rw); events.
Qed.

Lemma delete_acts_locally s e ids : cluster s = None -> embeddings s = Some e ->
  py_truthy (config_get s "writable") = true -> lock s = false ->
  exists evs, events_since s (delete ids s).2 evs /\ acts_locally evs = true.
Proof. intros Hc He Hw Hl. run. rw. repeat (outcome; rw); events. Qed.

(** The four writes on a gateway that is not writable, or that has
    neither cluster nor index. *)
Lemma writes_skipped s :
  cluster s = None ->
  embeddings s = None \/ py_truthy (config_get s "writable") = false ->
  (forall d, add d s = (Ok d, s)) /\ index s = (Ok tt, s) /\
  upsert s = (Ok tt, s) /\ (forall ids, delete ids s = (Ok PNone, s)).
Proof.
  intros Hc [He|Hw]; repeat split; intros; run; rw; try done;
    by destruct (embeddings s).
Qed.

Lemma reads_absent s : cluster s = None -> embeddings s = None ->
  (forall q r lim, limit (limit_param r) = Ok lim -> search q r s = (Ok PNone, s)) /\
  (forall qs l, batchsearch qs l s = (Ok PNone, s)) /\
  count s = (Ok PNone, s) /\
  (forall t, transform t s = (Ok PNone, s)) /\
  (forall ts, batchtransform ts s = (Ok PNone, s)) /\
  (pipelines s !! "similarity" = None ->
   forall q ts, similarity q ts s = (Ok PNone, s) /\
                batchsimilarity q ts s = (Ok PNone, s)).
Proof.
  intros Hc He. repeat split; intros; run; unfold limit_param in *; by rw.
Qed.

(** [transform], [batchtransform], [similarity] and [batchsimilarity] do
    not look at [self.cluster]. *)
Lemma transform_local s e t : embeddings s = Some e ->
  transform t s =
    (v ← local_read "transform" (emb_transform e (PTuple [PNone; t; PNone]));
     lift (floats v)) s.
Proof. intros He. run. by rw. Qed.

Lemma batchtransform_local s e ts : embeddings s = Some e ->
  batchtransform ts s =
    (items ← lift (py_iter ts);
     vs ← local_read "batchtransform"
            (emb_batchtransform e
               (PList (map (fun text => PTuple [PNone; text; PNone]) items)));
     lift (nested floats vs)) s.
Proof. intros He. run. by rw. Qed.

Lemma similarity_pipeline s p q ts : pipelines s !! "similarity" = Some p ->
  similarity q ts s =
    (results ← call_pipeline "similarity" [q; ts]; lift (score_records results)) s /\
  batchsimilarity q ts s =
    (results ← call_pipeline "similarity" [q; ts];
     lift (nested score_records results)) s.
Proof. intros Hp. split; run; by rw. Qed.

Lemma similarity_local s e q ts :
  pipelines s !! "similarity" = None -> embeddings s = Some e ->
  similarity q ts s =
    (results ← local_read "similarity" (emb_similarity e q ts);
     lift (score_records results)) s /\
  batchsimilarity q ts s =
    (results ← local_read "batchsimilarity" (emb_batchsimilarity e q ts);
     lift (nested score_records results)) s.
Proof. intros Hp He. split; run; by rw. Qed.
End Dispatch.

(** C1, as stated, fails: [transform] (like [batchtransform],
    [similarity] and [batchsimilarity]) has no cluster branch. On a
    gateway with both a cluster and a local index it runs on the local
    index. *)
Lemma transform_ignores_cluster :
  let s := gateway ∅ (Some stub_index) (Some []) in
  cluster s = Some [] /\
  transform (PStr "x") s =
    (Ok (PList [PFloat 0.5; PFloat 1]), emit (LocalCall "transform") s) /\
  ~ cluster_only s (transform (PStr "x") s).2.
Proof.
  cbn. split; [reflexivity|]. split; [reflexivity|].
  intros (_ & _ & _ & _ & evs & Hev & Hcl).
  unfold events_since in Hev. cbn in Hev.
  destruct evs as [|ev [|]]; try discriminate.
  injection Hev as <-. discriminate.
Qed.

(** C1 (amended): [search], [batchsearch], [add], [index], [upsert],
    [delete] and [count] are forwarded to the cluster when one is
    configured, and then buffer, local index and lock are left alone.
    Without a cluster, [search], [batchsearch] and [count] run on the local
    index when there is one; [add], [index], [upsert] and [delete] work on
    the local side, under the lock, when in addition the configuration is
    writable (and, for [index] and [upsert], documents are buffered) and
    do nothing otherwise. With neither cluster nor index the reads return
    [None], [add] returns its input and [index] and [upsert] return.
    [transform], [batchtransform], [similarity] and [batchsimilarity] never
    look at the cluster: the first two use the local index, the last two
    the [similarity] pipeline if registered and the local index otherwise,
    and all four return [None] when that is missing. *)
Theorem dispatch_seam `{RT : Runtime} {E C : Type}
    `{EO : !Embeddings E} `{CO : !Cluster C} (s : API E C) :
  (forall c, cluster s = Some c ->
     (forall q r,
        search q r s = (lim ← lift (limit (limit_param r));
                        cluster_read "search" (cl_search c q lim)) s /\
        cluster_only s (search q r s).2) /\
     (forall qs l,
        batchsearch qs l s =
          (n ← lift (limit l);
           cluster_read "batchsearch" (cl_batchsearch c qs n)) s /\
        cluster_only s (batchsearch qs l s).2) /\
     (forall d,
        add d s = (cluster_call "add" (cl_add c d);; mret d) s /\
        cluster_only s (add d s).2) /\
     (index s = cluster_call "index" (cl_index c) s /\
      cluster_only s (index s).2) /\
     (upsert s = cluster_call "upsert" (cl_upsert c) s /\
      cluster_only s (upsert s).2) /\
     (forall ids,
        delete ids s = cluster_call "delete" (cl_delete c ids) s /\
        cluster_only s (delete ids s).2) /\
     (count s = cluster_read "count" (cl_count c) s /\
      cluster_only s (count s).2)) /\
  (cluster s = None -> forall e, embeddings s = Some e ->
     (forall q r,
        search q r s = (lim ← lift (limit (limit_param r));
                        results ← local_read "search" (emb_search e q lim);
                        lift (unpack_results results)) s) /\
     (forall qs l,
        batchsearch qs l s =
          (n ← lift (limit l);
           found ← local_read "batchsearch" (emb_batchsearch e qs n);
           lift (nested unpack_results found)) s) /\
     count s = (n ← local_read "count" (emb_count e); mret (PInt n)) s /\
     (py_truthy (config_get s "writable") = true -> lock s = false ->
        (forall d, exists evs,
           events_since s (add d s).2 evs /\ acts_locally evs = true) /\
        (forall ids,
           delete ids s = with_lock (local_call "delete" (emb_delete e ids)) s /\
           exists evs,
             events_since s (delete ids s).2 evs /\ acts_locally evs = true) /\
        (documents_truthy s = true ->
           (exists evs,
              events_since s (index s).2 evs /\ acts_locally evs = true) /\
           (exists evs,
              events_since s (upsert s).2 evs /\ acts_locally evs = true)) /\
        (documents_truthy s = false ->
           index s = (Ok tt, s) /\ upsert s = (Ok tt, s))) /\
     (py_truthy (config_get s "writable") = false ->
        (forall d, add d s = (Ok d, s)) /\ index s = (Ok tt, s) /\
        upsert s = (Ok tt, s) /\ (forall ids, delete ids s = (Ok PNone, s)))) /\
  (cluster s = None -> embeddings s = None ->
     (forall q r lim,
        limit (limit_param r) = Ok lim -> search q r s = (Ok PNone, s)) /\
     (forall qs l, batchsearch qs l s = (Ok PNone, s)) /\
     count s = (Ok PNone, s) /\
     (forall ids, delete ids s = (Ok PNone, s)) /\
     (forall d, add d s = (Ok d, s)) /\
     index s = (Ok tt, s) /\ upsert s = (Ok tt, s)) /\
  (forall e, embeddings s = Some e ->
     (forall t,
        transform t s =
          (v ← local_read "transform"
                 (emb_transform e (PTuple [PNone; t; PNone]));
           lift (floats v)) s) /\
     (forall ts,
        batchtransform ts s =
          (items ← lift (py_iter ts);
           vs ← local_read "batchtransform"
                  (emb_batchtransform e
                     (PList (map (fun text => PTuple [PNone; text; PNone]) items)));
           lift (nested floats vs)) s) /\
     (pipelines s !! "similarity" = None -> forall q ts,
        similarity q ts s =
          (results ← local_read "similarity" (emb_similarity e q ts);
           lift (score_records results)) s /\
        batchsimilarity q ts s =
          (results ← local_read "batchsimilarity" (emb_batchsimilarity e q ts);
           lift (nested score_records results)) s)) /\
  (forall p, pipelines s !! "similarity" = Some p -> forall q ts,
     similarity q ts s =
       (results ← call_pipeline "similarity" [q; ts];
        lift (score_records results)) s /\
     batchsimilarity q ts s =
       (results ← call_pipeline "similarity" [q; ts];
        lift (nested score_records results)) s) /\
  (embeddings s = None ->
     (forall t, transform t s = (Ok PNone, s)) /\
     (forall ts, batchtransform ts s = (Ok PNone, s)) /\
     (pipelines s !! "similarity" = None -> forall q ts,
        similarity q ts s = (Ok PNone, s) /\
        batchsimilarity q ts s = (Ok PNone, s))).
Proof.
  split; [|split; [|split; [|split; [|split]]]].
  - intros c Hc.
    split; [intros q r; rewrite (search_cluster s c) by done; split; [done|]|].
    { apply cluster_only_lift. intros. apply cluster_only_read. }
    split; [intros qs l; rewrite (batchsearch_cluster s c) by done; split; [done|]|].
    { apply cluster_only_lift. intros. apply cluster_only_read. }
    split; [intros d; rewrite (add_cluster s c) by done; split; [done|]|].
    { unfold mbind, M_bind.
      destruct (cluster_call "add" (cl_add c d) s) as [[|] s1] eqn:Hr; cbn;
        change s1 with (Ok a, s1).2 || change s1 with (@Raise () e, s1).2;
        rewrite <- Hr; apply cluster_only_call. }
    rewrite (index_cluster s c), (upsert_cluster s c), (count_cluster s c) by done.
    split; [split; [done|apply cluster_only_call]|].
    split; [split; [done|apply cluster_only_call]|].
    split; [|split; [done|apply cluster_only_read]].
    intros ids. rewrite (delete_cluster s c) by done.
    split; [done|apply cluster_only_call].
  - intros Hc e He.
    split; [intros; by apply search_local|].
    split; [intros; by apply batchsearch_local|].
    split; [by apply count_local|].
    split.
    + intros Hw Hl.
      split; [intros; by eapply add_acts_locally|].
      split; [intros; split; [by apply delete_local|by eapply delete_acts_locally]|].
      split.
      * intros Hd. split; [by eapply index_acts_locally|by eapply upsert_acts_locally].
      * intros Hd. split; run; by rw.
    + intros Hw. apply writes_skipped; auto.
  - intros Hc He.
    destruct (reads_absent s Hc He) as (? & ? & ? & _).
    destruct (writes_skipped s Hc (or_introl He)) as (? & ? & ? & ?).
    by repeat split.
  - intros e He.
    split; [intros; by apply transform_local|].
    split; [intros; by apply batchtransform_local|].
    intros. by apply similarity_local.
  - intros. by eapply similarity_pipeline.
  - intros He. split; [|split]; intros; repeat split; run; by rw.
Qed.

Lemma dispatch_seam_witness :
  let s := gateway writable_config (Some stub_index) None in
  cluster s = None /\ embeddings s = Some stub_index /\
  count s = (Ok (PInt 0), emit (LocalCall "count") s) /\
  exists evs, events_since s (add (PList [PStr "a"]) s).2 evs /\
              acts_locally evs = true.
Proof.
  cbn. split; [reflexivity|]. split; [reflexivity|].
  pose proof (dispatch_seam (gateway writable_config (Some stub_index) None))
    as (_ & Hlocal & _).
  destruct (Hlocal eq_refl stub_index eq_refl) as (_ & _ & Hcount & Hw & _).
  split; [rewrite Hcount; reflexivity|].
  destruct (Hw eq_refl eq_refl) as (Hadd & _).
  apply Hadd.
Defined.

(** ** Gateways that are not writable *)

(** C3, as stated, fails: the [writable] flag is only read on the local
    branch. A gateway that is not writable but has a cluster forwards every
    write to the cluster. *)
Lemma cluster_ignores_writable :
  let s := gateway ∅ None (Some []) in
  py_truthy (config_get s "writable") = false /\
  cluster (add (PList [PStr "a"]) s).2 = Some ["add"] /\
  cluster (index s).2 = Some ["index"] /\
  cluster (upsert s).2 = Some ["upsert"] /\
  delete (PList [PInt 1]) s =
    (Ok (PList [PInt 1]),
     set_cluster (Some ["delete"]) (emit (ClusterCall "delete") s)) /\
  index s <> (Ok tt, s).
Proof. cbn. repeat split; try reflexivity. discriminate. Qed.

(** C3 (amended): on a gateway without a cluster whose configuration is
    not marked writable, every mutating call is a no-op that does not
    raise: [add] returns its input, [index] and [upsert] return, [delete]
    returns [None], and the gateway (buffer included) is exactly as
    before. With a cluster configured the calls are forwarded to the
    cluster whatever the flag says. *)
Theorem not_writable_noop `{RT : Runtime} {E C : Type}
    `{EO : !Embeddings E} `{CO : !Cluster C} (s : API E C) :
  py_truthy (config_get s "writable") = false ->
  (cluster s = None ->
     (forall d, add d s = (Ok d, s)) /\
     index s = (Ok tt, s) /\
     upsert s = (Ok tt, s) /\
     (forall ids, delete ids s = (Ok PNone, s))) /\
  (forall c, cluster s = Some c ->
     (forall d, add d s = (cluster_call "add" (cl_add c d);; mret d) s) /\
     index s = cluster_call "index" (cl_index c) s /\
     upsert s = cluster_call "upsert" (cl_upsert c) s /\
     (forall ids, delete ids s = cluster_call "delete" (cl_delete c ids) s)).
Proof.
  intros Hw. split.
  - intros Hc. apply writes_skipped; auto.
  - intros c Hc. split; [intros; by apply add_cluster|].
    split; [by apply index_cluster|]. split; [by apply upsert_cluster|].
    intros; by apply delete_cluster.
Qed.

Lemma not_writable_noop_witness :
  let s := gateway ∅ (Some stub_index) None in
  py_truthy (config_get s "writable") = false /\ cluster s = None /\
  add (PList [PStr "a"]) s = (Ok (PList [PStr "a"]), s) /\
  index s = (Ok tt, s).
Proof.
  cbn. split; [reflexivity|]. split; [reflexivity|].
  assert (py_truthy (config_get (gateway ∅ (Some stub_index) None) "writable")
          = false) as Hw by reflexivity.
  destruct (not_writable_noop (gateway ∅ (Some stub_index) None) Hw)
    as (H & _).
  destruct (H eq_refl) as (Hadd & Hindex & _).
  split; [apply Hadd|apply Hindex].
Defined.

(** ** A flush whose save fails *)

Section Flush.
Context `{RT : Runtime} {E C : Type} `{EO : !Embeddings E} `{CO : !Cluster C}.
Implicit Types s : API E C.

(** [index] either goes through, and then the buffer is gone, or raises,
    and then the buffer is the one it started from; the lock is free
    afterwards either way. *)
Lemma index_outcome s e d ds :
  cluster s = None -> embeddings s = Some e ->
  py_truthy (config_get s "writable") = true ->
  documents s = Some (d :: ds) -> lock s = false ->
  ((index s).1 = Ok tt /\ documents (index s).2 = None \/
   exists x, (index s).1 = Raise x /\ documents (index s).2 = documents s) /\
  lock (index s).2 = false.
Proof.
  intros Hc He Hw Hd Hl. run. rw.
  repeat (outcome; rw); split; try done; (by left) || (right; by eexists).
Qed.

Lemma upsert_outcome s e d ds :
  cluster s = None -> embeddings s = Some e ->
  py_truthy (config_get s "writable") = true ->
  documents s = Some (d :: ds) -> lock s = false ->
  ((upsert s).1 = Ok tt /\ documents (upsert s).2 = None \/
   exists x, (upsert s).1 = Raise x /\ documents (upsert s).2 = documents s) /\
  lock (upsert s).2 = false.
Proof.
  intros Hc He Hw Hd Hl. run. rw.
  repeat (outcome; rw); split; try done; (by left) || (right; by eexists).
Qed.

(** A flush that reset the buffer on a gateway with a path has saved the
    index, and the save returned. *)
Lemma index_reset_saved s e d ds :
  cluster s = None -> embeddings s = Some e ->
  py_truthy (config_get s "writable") = true ->
  documents s = Some (d :: ds) -> lock s = false ->
  py_truthy (config_get s "path") = true ->
  documents (index s).2 = None ->
  exists e1 e2, emb_save e1 (config_get s "path") = (Ok tt, e2) /\
                embeddings (index s).2 = Some e2.
Proof.
  intros Hc He Hw Hd Hl Hp. run. rw.
  repeat (outcome; rw); try done; intros _; by eexists _, _.
Qed.

Lemma upsert_reset_saved s e d ds :
  cluster s = None -> embeddings s = Some e ->
  py_truthy (config_get s "writable") = true ->
  documents s = Some (d :: ds) -> lock s = false ->
  py_truthy (config_get s "path") = true ->
  documents (upsert s).2 = None ->
  exists e1 e2, emb_save e1 (config_get s "path") = (Ok tt, e2) /\
                embeddings (upsert s).2 = Some e2.
Proof.
  intros Hc He Hw Hd Hl Hp. run. rw.
  repeat (outcome; rw); try done; intros _; by eexists _, _.
Qed.

Lemma index_save_raises s e d ds e0 e1 e2 x :
  cluster s = None -> embeddings s = Some e ->
  py_truthy (config_get s "writable") = true ->
  documents s = Some (d :: ds) -> lock s = false ->
  scored e (documents s) = (Ok tt, e0) ->
  emb_index e0 (documents s) = (Ok tt, e1) ->
  py_truthy (config_get s "path") = true ->
  emb_save e1 (config_get s "path") = (Raise x, e2) ->
  (index s).1 = Raise x /\ lock (index s).2 = false /\
  documents (index s).2 = documents s /\ embeddings (index s).2 = Some e2.
Proof.
  intros Hc He Hw Hd Hl Hs Hi Hp Hx. unfold scored in Hs.
  rewrite Hd in Hs, Hi. run. rw.
  destruct (emb_scoring e); rw; [|injection Hs as <-]; by rw.
Qed.

Lemma upsert_save_raises s e d ds e1 e2 x :
  cluster s = None -> embeddings s = Some e ->
  py_truthy (config_get s "writable") = true ->
  documents s = Some (d :: ds) -> lock s = false ->
  emb_upsert e (documents s) = (Ok tt, e1) ->
  py_truthy (config_get s "path") = true ->
  emb_save e1 (config_get s "path") = (Raise x, e2) ->
  (upsert s).1 = Raise x /\ lock (upsert s).2 = false /\
  documents (upsert s).2 = documents s /\ embeddings (upsert s).2 = Some e2.
Proof. intros Hc He Hw Hd Hl Hi Hp Hx. rewrite Hd in Hi. run. by rw. Qed.
End Flush.

(** C2: when the save step of [index] or [upsert] raises, the exception
    reaches the caller, the write lock is free again and the buffer is
    the one the call started with; the buffer is reset only by a call that
    did not raise, and, where a path is configured, only after the save
    returned. *)
Theorem save_failure_keeps_buffer `{RT : Runtime} {E C : Type}
    `{EO : !Embeddings E} `{CO : !Cluster C} (s : API E C) e d ds :
  cluster s = None -> embeddings s = Some e ->
  py_truthy (config_get s "writable") = true ->
  documents s = Some (d :: ds) -> lock s = false ->
  (forall e0 e1 e2 x,
     scored e (documents s) = (Ok tt, e0) ->
     emb_index e0 (documents s) = (Ok tt, e1) ->
     py_truthy (config_get s "path") = true ->
     emb_save e1 (config_get s "path") = (Raise x, e2) ->
     (index s).1 = Raise x /\ lock (index s).2 = false /\
     documents (index s).2 = documents s) /\
  (forall e1 e2 x,
     emb_upsert e (documents s) = (Ok tt, e1) ->
     py_truthy (config_get s "path") = true ->
     emb_save e1 (config_get s "path") = (Raise x, e2) ->
     (upsert s).1 = Raise x /\ lock (upsert s).2 = false /\
     documents (upsert s).2 = documents s) /\
  (documents (index s).2 = None -> (index s).1 = Ok tt) /\
  (documents (upsert s).2 = None -> (upsert s).1 = Ok tt) /\
  (forall x, (index s).1 = Raise x ->
     documents (index s).2 = documents s /\ lock (index s).2 = false) /\
  (forall x, (upsert s).1 = Raise x ->
     documents (upsert s).2 = documents s /\ lock (upsert s).2 = false) /\
  (py_truthy (config_get s "path") = true ->
     (documents (index s).2 = None ->
        exists e1 e2, emb_save e1 (config_get s "path") = (Ok tt, e2) /\
                      embeddings (index s).2 = Some e2) /\
     (documents (upsert s).2 = None ->
        exists e1 e2, emb_save e1 (config_get s "path") = (Ok tt, e2) /\
                      embeddings (upsert s).2 = Some e2)).
Proof.
  intros Hc He Hw Hd Hl.
  destruct (index_outcome s e d ds Hc He Hw Hd Hl) as [Hi Hil].
  destruct (upsert_outcome s e d ds Hc He Hw Hd Hl) as [Hu Hul].
  split; [|split; [|split; [|split; [|split; [|split]]]]];
    [| | | | | |intros Hp; split;
               [by eapply index_reset_saved|by eapply upsert_reset_saved]].
  - intros e0 e1 e2 x Hs Hx Hp Hv.
    destruct (index_save_raises s e d ds e0 e1 e2 x) as (? & ? & ? & _); auto.
  - intros e1 e2 x Hx Hp Hv.
    destruct (upsert_save_raises s e d ds e1 e2 x) as (? & ? & ? & _); auto.
  - intros Hn. destruct Hi as [[? _]|(x & _ & Hk)]; [done|]. congruence.
  - intros Hn. destruct Hu as [[? _]|(x & _ & Hk)]; [done|]. congruence.
  - intros x Hx. destruct Hi as [[? _]|(y & _ & Hk)]; [congruence|done].
  - intros x Hx. destruct Hu as [[? _]|(y & _ & Hk)]; [congruence|done].
Qed.

Lemma save_failure_keeps_buffer_witness :
  let s := buffering stored_config full_index [PTuple [PInt 0; PStr "a"; PNone]] in
  (index s).1 = Raise (ExternalError "save") /\
  lock (index s).2 = false /\
  documents (index s).2 = Some [PTuple [PInt 0; PStr "a"; PNone]] /\
  (upsert s).1 = Raise (ExternalError "save") /\
  documents (upsert s).2 = Some [PTuple [PInt 0; PStr "a"; PNone]].
Proof.
  set (doc := PTuple [PInt 0; PStr "a"; PNone]).
  pose proof (save_failure_keeps_buffer
                (buffering stored_config full_index [doc]) full_index doc []
                eq_refl eq_refl eq_refl eq_refl eq_refl) as (Hi & Hu & _).
  destruct (Hi full_index (mkStubIndex [doc] (PList []) true)
               (mkStubIndex [doc] (PList []) true) (ExternalError "save")
               eq_refl eq_refl eq_refl eq_refl) as (? & ? & ?).
  destruct (Hu (mkStubIndex [doc] (PList []) true)
               (mkStubIndex [doc] (PList []) true) (ExternalError "save")
               eq_refl eq_refl eq_refl) as (? & _ & ?).
  cbn zeta. by repeat split.
Defined.

(** ** Buffering documents *)

Section Buffer.
Context `{RT : Runtime} {E C : Type} `{EO : !Embeddings E} `{CO : !Cluster C}.
Implicit Types s : API E C.

Lemma texts_nonneg docs : 0 <= texts docs.
Proof. induction docs as [|[] ? IH]; cbn; lia. Qed.

Lemma texts_app l1 l2 : texts (l1 ++ l2) = texts l1 + texts l2.
Proof. induction l1 as [|[] ? IH]; cbn; lia. Qed.

Lemma texts_le_length docs : texts docs <= Z.of_nat (length docs).
Proof. induction docs as [|[] ? IH]; cbn [texts length]; lia. Qed.

Lemma texts_take_lt (docs : list PyVal) i j t :
  (i < j)%nat -> docs !! i = Some (PStr t) ->
  texts (take i docs) < texts (take j docs).
Proof.
  intros Hij Hi.
  rewrite <- (take_drop i (take j docs)), take_take, texts_app.
  replace (i `min` j)%nat with i by lia.
  assert (drop i (take j docs) = PStr t :: drop (S i) (take j docs)) as ->.
  { apply drop_S. rewrite lookup_take_lt by lia. done. }
  cbn. pose proof (texts_nonneg (drop (S i) (take j docs))). lia.
Qed.

(** What the loop of [add] builds. *)
Lemma add_loop_spec (items : list PyVal) : forall (z : Z) (acc batch : list PyVal),
  add_loop (PInt z) acc items = Ok batch ->
  exists new, batch = acc ++ new /\ length new = length items /\
    forall i doc, items !! i = Some doc ->
      exists out, new !! i = Some out /\
                  canonical (z + texts (take i items)) doc out.
Proof.
  induction items as [|doc items IH]; intros z acc batch H; cbn in H.
  - injection H as <-. exists []. rewrite app_nil_r. by repeat split.
  - assert (forall out next,
              add_loop (PInt next) (acc ++ [out]) items = Ok batch ->
              canonical z doc out ->
              next = z + texts [doc] ->
              exists new, batch = acc ++ new /\
                length new = length (doc :: items) /\
                forall i d, (doc :: items) !! i = Some d ->
                  exists o, new !! i = Some o /\
                            canonical (z + texts (take i (doc :: items))) d o)
      as Hstep.
    { intros out next Hrest Hout Hnext.
      destruct (IH _ _ _ Hrest) as (new & -> & Hlen & Hall).
      exists (out :: new). rewrite <- app_assoc. split; [done|].
      split; [cbn; by rewrite Hlen|].
      intros [|i] d Hd; cbn in Hd.
      - injection Hd as <-. exists out. split; [done|].
        cbn [take texts]. by rewrite Z.add_0_r.
      - destruct (Hall i d Hd) as (o & Ho & Hc). exists o. split; [done|].
        replace (z + texts (take (S i) (doc :: items)))
          with (next + texts (take i items)); [done|].
        subst next. change (take (S i) (doc :: items)) with ([doc] ++ take i items).
        rewrite texts_app. lia. }
    destruct doc as [| | | |t|l|l|d|o]; cbn in H;
      try (eapply Hstep; [exact H|reflexivity|cbn; lia]).
    + destruct l as [|a [|b [|c l]]]; cbn in H; try discriminate;
        (eapply Hstep; [exact H|reflexivity|cbn; lia]).
    + destruct (dict_get d "id") as [uid|] eqn:Hid; [|discriminate].
      eapply Hstep; [exact H| |cbn; lia]. cbn. by exists uid.
Qed.

Lemma add_loop_total (items : list PyVal) : forall (z : Z) (acc : list PyVal),
  forallb addable items = true ->
  exists batch, add_loop (PInt z) acc items = Ok batch.
Proof.
  induction items as [|doc items IH]; intros z acc H; cbn in *.
  - by eexists.
  - apply andb_prop in H as [Hd Hrest].
    destruct doc as [| | | |t|l|l|d|o]; cbn in *; try (by apply IH).
    + destruct l as [|a [|b [|c l]]]; cbn in *; try discriminate; by apply IH.
    + apply bool_decide_eq_true in Hd as [uid ->]. by apply IH.
Qed.
End Buffer.

(** C4, as stated, fails: the counter starts at count + buffered, which
    says nothing about the ids callers supplied. After a pair with id 1 is
    buffered in an empty index, the next bare text is given id 1 too. *)
Lemma auto_id_collides :
  let s0 := gateway writable_config (Some stub_index) None in
  let s1 := (add (PList [PTuple [PInt 1; PStr "x"]]) s0).2 in
  let s2 := (add (PList [PStr "y"]) s1).2 in
  documents s1 = Some [PTuple [PInt 1; PStr "x"; PNone]] /\
  documents s2 = Some [PTuple [PInt 1; PStr "x"; PNone];
                       PTuple [PInt 1; PStr "y"; PNone]].
Proof. cbn. split; reflexivity. Qed.

(** C4 (amended): on a writable gateway with a local index and no cluster,
    [add] appends to the buffer, in call order, one entry per input
    document: a record becomes (its id, the record, None), a pair is padded
    with None, and a bare text gets the value of a counter that starts at
    count + buffered and moves by one per bare text. The auto-assigned ids
    of a call are strictly increasing, lie at or above count + buffered and
    below the value the counter of the next call starts from. (They may
    still coincide with ids that callers supplied.) *)
Theorem add_buffers `{RT : Runtime} {E C : Type}
    `{EO : !Embeddings E} `{CO : !Cluster C} (s : API E C) e n docs items :
  cluster s = None -> embeddings s = Some e ->
  py_truthy (config_get s "writable") = true -> lock s = false ->
  emb_count e = Ok n -> py_iter docs = Ok items ->
  forallb addable items = true ->
  let start := n + Z.of_nat (buffered s) in
  exists new,
    (add docs s).1 = Ok docs /\
    documents (add docs s).2 = Some (default [] (documents s) ++ new) /\
    embeddings (add docs s).2 = Some e /\ lock (add docs s).2 = false /\
    length new = length items /\
    n + Z.of_nat (buffered (add docs s).2) = start + Z.of_nat (length items) /\
    (forall i doc, items !! i = Some doc ->
       exists out, new !! i = Some out /\
                   canonical (start + texts (take i items)) doc out) /\
    (forall i j ti tj, (i < j)%nat ->
       items !! i = Some (PStr ti) -> items !! j = Some (PStr tj) ->
       exists a b,
         new !! i = Some (PTuple [PInt a; PStr ti; PNone]) /\
         new !! j = Some (PTuple [PInt b; PStr tj; PNone]) /\
         start <= a < b /\ b < start + Z.of_nat (length items)).
Proof.
  intros Hc He Hw Hl Hn Hit Hok start.
  destruct (add_loop_total items start [] Hok) as [batch Hb].
  destruct (add_loop_spec items start [] batch Hb) as (new & -> & Hlen & Hall).
  cbn [app] in Hb.
  assert (forall i j ti tj, (i < j)%nat ->
       items !! i = Some (PStr ti) -> items !! j = Some (PStr tj) ->
       exists a b,
         new !! i = Some (PTuple [PInt a; PStr ti; PNone]) /\
         new !! j = Some (PTuple [PInt b; PStr tj; PNone]) /\
         start <= a < b /\ b < start + Z.of_nat (length items)) as Hinc.
  { intros i j ti tj Hij Hi Hj.
    destruct (Hall i _ Hi) as (oi & Hoi & ->).
    destruct (Hall j _ Hj) as (oj & Hoj & ->).
    eexists _, _. split; [exact Hoi|]. split; [exact Hoj|].
    pose proof (texts_take_lt items i j ti Hij Hi).
    pose proof (texts_nonneg (take i items)).
    pose proof (texts_le_length (take j items)) as Hle.
    rewrite length_take in Hle.
    apply lookup_lt_Some in Hj. lia. }
  exists new. unfold buffered, start in *. run. rw. unfold buffered in *.
  destruct (documents s) as [[|d0 ds]|] eqn:Hd; rw;
    rewrite ?Z.add_0_r in *; rw; rewrite ?app_nil_r; rw;
    repeat split; try done; try (rewrite ?length_app, ?Hlen; cbn; lia).
Qed.

Lemma add_buffers_witness :
  let s := buffering writable_config stub_index [PTuple [PInt 0; PStr "a"; PNone]] in
  let docs := PList [PStr "b"; PDict [("id", PInt 7); ("text", PStr "c")];
                     PTuple [PStr "k"; PStr "d"]; PStr "e"] in
  (add docs s).1 = Ok docs /\
  exists new,
    documents (add docs s).2 = Some ([PTuple [PInt 0; PStr "a"; PNone]] ++ new) /\
    new !! 0%nat = Some (PTuple [PInt 1; PStr "b"; PNone]) /\
    new !! 3%nat = Some (PTuple [PInt 2; PStr "e"; PNone]).
Proof.
  intros s docs.
  destruct (add_buffers (RT:=stub_runtime) (EO:=stub_embeddings)
              (CO:=stub_cluster) s stub_index 0 docs
              [PStr "b"; PDict [("id", PInt 7); ("text", PStr "c")];
               PTuple [PStr "k"; PStr "d"]; PStr "e"]
              eq_refl eq_refl eq_refl eq_refl eq_refl eq_refl eq_refl)
    as (new & Hr & Hd & _ & _ & _ & _ & Hall & _).
  split; [exact Hr|]. exists new. split; [exact Hd|].
  destruct (Hall 0%nat _ eq_refl) as (o0 & H0 & ->).
  destruct (Hall 3%nat _ eq_refl) as (o3 & H3 & ->).
  split; [exact H0|exact H3].
Defined.

(** ** Normalising search results *)

Section Normalise.
Context `{RT : Runtime}.

Lemma comprehension_Forall2 {A B} (f : A -> Outcome B) (l : list A) :
  forall out, comprehension f l = Ok out -> Forall2 (fun x y => f x = Ok y) l out.
Proof.
  induction l as [|x l IH]; intros out H; cbn in H.
  - injection H as <-. constructor.
  - destruct (f x) as [y|] eqn:Hx; [|done]. cbn in H.
    destruct (comprehension f l) as [ys|] eqn:Hl; [|done]. cbn in H.
    injection H as <-. constructor; [done|by apply IH].
Qed.

Lemma comprehension_total {A B} (f : A -> Outcome B) (l : list A) :
  Forall (fun x => exists y, f x = Ok y) l ->
  exists out, comprehension f l = Ok out.
Proof.
  induction 1 as [|x l [y Hy] _ [out IH]]; cbn.
  - by eexists.
  - rewrite Hy. cbn. rewrite IH. cbn. by eexists.
Qed.

Lemma unpack_result_normalized r out :
  unpack_result r = Ok out -> normalized r out.
Proof.
  destruct r as [| | | | |l| | |]; cbn; try (by intros [= <-]).
  destruct l as [|uid [|score l]]; try done. cbn.
  destruct (py_float score) as [f|]; [|done]. cbn.
  intros [= <-]. by exists f.
Qed.

Lemma unpack_result_total r :
  normalizable r = true -> exists out, unpack_result r = Ok out.
Proof.
  destruct r as [| | | | |l| | |]; cbn; try (by eexists).
  destruct l as [|uid [|score l]]; try done.
  destruct (py_float score) as [f|]; [|done]. cbn. by eexists.
Qed.

Lemma unpack_results_spec results rs v :
  py_iter results = Ok rs -> unpack_results results = Ok v ->
  exists out, v = PList out /\ Forall2 normalized rs out.
Proof.
  unfold unpack_results. intros -> H. cbn in H.
  destruct (comprehension unpack_result rs) as [out|] eqn:Hc; [|done].
  injection H as <-. exists out. split; [done|].
  apply comprehension_Forall2 in Hc.
  eapply Forall2_impl; [exact Hc|]. apply unpack_result_normalized.
Qed.

Lemma unpack_results_total results rs :
  py_iter results = Ok rs -> forallb normalizable rs = true ->
  exists out, unpack_results results = Ok (PList out).
Proof.
  unfold unpack_results. intros -> H. cbn.
  destruct (comprehension_total unpack_result rs) as [out ->].
  - apply Forall_forall. intros r Hr. apply unpack_result_total.
    rewrite forallb_forall in H. apply H. by apply list_elem_of_In.
  - by exists out.
Qed.

Lemma nested_unpack_spec found groups v :
  py_iter found = Ok groups -> nested unpack_results found = Ok v ->
  exists outs, v = PList outs /\ Forall2 normalized_group groups outs.
Proof.
  unfold nested. intros -> H. cbn in H.
  destruct (comprehension unpack_results groups) as [outs|] eqn:Hc; [|done].
  injection H as <-. exists outs. split; [done|].
  apply comprehension_Forall2 in Hc.
  eapply Forall2_impl; [exact Hc|]. cbn. intros g o Hg.
  unfold normalized_group.
  destruct (py_iter g) as [rs|] eqn:Hi; [|by unfold unpack_results in Hg; rewrite Hi in Hg].
  destruct (unpack_results_spec g rs o Hi Hg) as (out & -> & Hall).
  by exists rs, out.
Qed.
Lemma comprehension_related {A B} (f : A -> Outcome B) (p : A -> bool)
    (R : A -> B -> Prop) (l : list A) :
  (forall x, p x = true -> exists y, f x = Ok y /\ R x y) ->
  forallb p l = true ->
  exists out, comprehension f l = Ok out /\ Forall2 R l out.
Proof.
  intros Hf. induction l as [|x l IH]; cbn; intros Hp.
  - exists []. by split.
  - apply andb_prop in Hp as [Hx Hl].
    destruct (Hf x Hx) as (y & -> & Hy). destruct (IH Hl) as (out & -> & Hout).
    cbn. exists (y :: out). split; [done|by constructor].
Qed.

(** A comprehension stops at the first element it cannot build. *)
Lemma comprehension_first_error {A B} (f : A -> Outcome B) good x rest e :
  Forall (fun y => exists z, f y = Ok z) good -> f x = Raise e ->
  comprehension f (good ++ x :: rest) = Raise e.
Proof.
  intros Hgood Hx. induction Hgood as [|y good [z Hz] _ IH]; cbn.
  - by rewrite Hx.
  - by rewrite Hz, IH.
Qed.

Lemma unpack_results_normalized results rs :
  py_iter results = Ok rs -> forallb normalizable rs = true ->
  exists out, unpack_results results = Ok (PList out) /\
              Forall2 normalized rs out.
Proof.
  intros Hit Hok.
  destruct (unpack_results_total results rs Hit Hok) as [out Hout].
  exists out. split; [done|].
  by destruct (unpack_results_spec results rs _ Hit Hout) as (out' & [= <-] & H).
Qed.

Lemma nested_unpack_normalized found groups :
  py_iter found = Ok groups -> forallb (group_of normalizable) groups = true ->
  exists outs, nested unpack_results found = Ok (PList outs) /\
               Forall2 normalized_group groups outs.
Proof.
  intros Hit Hok. unfold nested. rewrite Hit. cbn.
  destruct (comprehension_related unpack_results (group_of normalizable)
              normalized_group groups) as (outs & -> & Houts); [|done|].
  - intros g Hg. unfold group_of in Hg.
    destruct (py_iter g) as [rs|] eqn:Hrs; [|done].
    destruct (unpack_results_normalized g rs Hrs Hg) as (out & Hout & Hall).
    exists (PList out). split; [done|]. by exists rs, out.
  - by exists outs.
Qed.

Lemma score_record_scored r :
  scorable r = true -> exists out, score_record r = Ok out /\ scored_pair r out.
Proof.
  unfold scorable, score_record, unpack2, scored_pair.
  destruct (py_iter r) as [[|uid [|score [|]]]|]; try done. cbn.
  destruct (py_float score) as [f|] eqn:Hf; [|done]. intros _.
  exists (record uid f). split; [done|]. by exists uid, score, f.
Qed.

Lemma score_records_scored results rs :
  py_iter results = Ok rs -> forallb scorable rs = true ->
  exists out, score_records results = Ok (PList out) /\
              Forall2 scored_pair rs out.
Proof.
  intros Hit Hok. unfold score_records. rewrite Hit. cbn.
  destruct (comprehension_related score_record scorable scored_pair rs
              score_record_scored Hok) as (out & -> & Hout).
  by exists out.
Qed.

Lemma nested_score_scored found groups :
  py_iter found = Ok groups -> forallb (group_of scorable) groups = true ->
  exists outs, nested score_records found = Ok (PList outs) /\
               Forall2 scored_group groups outs.
Proof.
  intros Hit Hok. unfold nested. rewrite Hit. cbn.
  destruct (comprehension_related score_records (group_of scorable)
              scored_group groups) as (outs & -> & Houts); [|done|].
  - intros g Hg. unfold group_of in Hg.
    destruct (py_iter g) as [rs|] eqn:Hrs; [|done].
    destruct (score_records_scored g rs Hrs Hg) as (out & Hout & Hall).
    exists (PList out). split; [done|]. by exists rs, out.
  - by exists outs.
Qed.

(** In the similarity family a record is unpacked like any other element:
    unless it has exactly two fields, unpacking raises. *)
Lemma score_record_arity r items :
  py_iter r = Ok items -> length items <> 2%nat ->
  score_record r = Raise ValueError.
Proof.
  intros Hr Hlen. unfold score_record, unpack2. rewrite Hr.
  by destruct items as [|a [|b [|c items]]].
Qed.
End Normalise.

Section SearchFamily.
Context `{RT : Runtime} {E C : Type} `{EO : !Embeddings E} `{CO : !Cluster C}.
Implicit Types s : API E C.

Lemma search_local_normalized s e q r lim results rs :
  cluster s = None -> embeddings s = Some e ->
  limit (limit_param r) = Ok lim ->
  emb_search e q lim = Ok results -> py_iter results = Ok rs ->
  (forall v, (search q r s).1 = Ok v ->
     exists out, v = PList out /\ Forall2 normalized rs out) /\
  (forallb normalizable rs = true ->
     exists out, search q r s = (Ok (PList out), emit (LocalCall "search") s) /\
                 Forall2 normalized rs out).
Proof.
  intros Hc He Hlim Hs Hit.
  assert (search q r s = (unpack_results results, emit (LocalCall "search") s))
    as Heq.
  { rewrite (search_local s e) by done. run. rewrite Hlim. rw.
    by destruct (unpack_results results). }
  rewrite Heq. split.
  - intros v Hv. by eapply unpack_results_spec.
  - intros Hok.
    destruct (unpack_results_normalized results rs Hit Hok) as (out & -> & H).
    by exists out.
Qed.

Lemma batchsearch_local_normalized s e qs l n found groups :
  cluster s = None -> embeddings s = Some e ->
  limit l = Ok n ->
  emb_batchsearch e qs n = Ok found -> py_iter found = Ok groups ->
  (forall v, (batchsearch qs l s).1 = Ok v ->
     exists outs, v = PList outs /\ Forall2 normalized_group groups outs) /\
  (forallb (group_of normalizable) groups = true ->
     exists outs,
       batchsearch qs l s = (Ok (PList outs), emit (LocalCall "batchsearch") s) /\
       Forall2 normalized_group groups outs).
Proof.
  intros Hc He Hlim Hs Hit.
  assert (batchsearch qs l s =
          (nested unpack_results found, emit (LocalCall "batchsearch") s)) as Heq.
  { rewrite (batchsearch_local s e) by done. run. rewrite Hlim. rw.
    by destruct (nested unpack_results found). }
  rewrite Heq. split.
  - intros v Hv. by eapply nested_unpack_spec.
  - intros Hok.
    destruct (nested_unpack_normalized found groups Hit Hok) as (outs & -> & H).
    by exists outs.
Qed.

Lemma search_cluster_as_received s c :
  cluster s = Some c ->
  (forall q r lim, limit (limit_param r) = Ok lim ->
     search q r s = (cl_search c q lim, emit (ClusterCall "search") s)) /\
  (forall qs l n, limit l = Ok n ->
     batchsearch qs l s =
       (cl_batchsearch c qs n, emit (ClusterCall "batchsearch") s)).
Proof.
  intros Hc. split.
  - intros q r lim Hlim. rewrite (search_cluster s c) by done. run.
    by rewrite Hlim.
  - intros qs l n Hlim. rewrite (batchsearch_cluster s c) by done. run.
    by rewrite Hlim.
Qed.

Lemma similarity_scored s q ts results rs :
  py_iter results = Ok rs -> forallb scorable rs = true ->
  (forall p, pipelines s !! "similarity" = Some p ->
     pipeline_call p [q; ts] = Ok results ->
     exists out,
       similarity q ts s = (Ok (PList out), emit (PipelineCall "similarity") s) /\
       Forall2 scored_pair rs out) /\
  (forall e, pipelines s !! "similarity" = None -> embeddings s = Some e ->
     emb_similarity e q ts = Ok results ->
     exists out,
       similarity q ts s = (Ok (PList out), emit (LocalCall "similarity") s) /\
       Forall2 scored_pair rs out) /\
  (forall p text, q = PStr text -> pipelines s !! "labels" = Some p ->
     pipeline_call p [q; ts] = Ok results ->
     exists out,
       label q ts s = (Ok (PList out), emit (PipelineCall "labels") s) /\
       Forall2 scored_pair rs out).
Proof.
  intros Hit Hok.
  destruct (score_records_scored results rs Hit Hok) as (out & Hs & Hout).
  split; [|split].
  - intros p Hp Hr. exists out. split; [|done]. run. by rw.
  - intros e Hp He Hr. exists out. split; [|done]. run. by rw.
  - intros p text -> Hp Hr. exists out. split; [|done]. run. by rw.
Qed.

Lemma batchsimilarity_scored s qs ts found groups :
  py_iter found = Ok groups -> forallb (group_of scorable) groups = true ->
  (forall p, pipelines s !! "similarity" = Some p ->
     pipeline_call p [qs; ts] = Ok found ->
     exists outs,
       batchsimilarity qs ts s =
         (Ok (PList outs), emit (PipelineCall "similarity") s) /\
       Forall2 scored_group groups outs) /\
  (forall e, pipelines s !! "similarity" = None -> embeddings s = Some e ->
     emb_batchsimilarity e qs ts = Ok found ->
     exists outs,
       batchsimilarity qs ts s =
         (Ok (PList outs), emit (LocalCall "batchsimilarity") s) /\
       Forall2 scored_group groups outs) /\
  (forall p, (forall text, qs <> PStr text) ->
     pipelines s !! "labels" = Some p ->
     pipeline_call p [qs; ts] = Ok found ->
     exists outs,
       label qs ts s = (Ok (PList outs), emit (PipelineCall "labels") s) /\
       Forall2 scored_group groups outs).
Proof.
  intros Hit Hok.
  destruct (nested_score_scored found groups Hit Hok) as (outs & Hs & Houts).
  split; [|split].
  - intros p Hp Hr. exists outs. split; [|done]. run. by rw.
  - intros e Hp He Hr. exists outs. split; [|done]. run. by rw.
  - intros p Hq Hp Hr. exists outs. split; [|done]. run. rw.
    destruct qs as [| | | |text| | | |]; rw; try done. by destruct (Hq text).
Qed.
End SearchFamily.

(** C7, as stated, fails for [similarity], [batchsimilarity] and [label]:
    they unpack every upstream element into an id and a score, so a
    record, which [search] passes through unchanged, makes them raise. The
    index below answers with the record [{id: 1, score: 0.9}], then with a
    record that also carries the text. *)
Theorem similarity_rejects_records :
  let r2 := PDict [("id", PInt 1); ("score", PFloat 0.9)] in
  let r3 := PDict [("id", PInt 1); ("text", PStr "a"); ("score", PFloat 0.9)] in
  let s2 := gateway ∅ (Some (mkStubIndex [] (PList [r2]) false)) None in
  let s3 := gateway ∅ (Some (mkStubIndex [] (PList [r3]) false)) None in
  (search (PStr "q") None s2).1 = Ok (PList [r2]) /\
  (similarity (PStr "q") (PList [PStr "a"]) s2).1 = Raise ValueError /\
  (batchsimilarity (PList [PStr "q"]) (PList [PStr "a"]) s2).1
    = Raise ValueError /\
  (search (PStr "q") None s3).1 = Ok (PList [r3]) /\
  (similarity (PStr "q") (PList [PStr "a"]) s3).1 = Raise ValueError /\
  (batchsimilarity (PList [PStr "q"]) (PList [PStr "a"]) s3).1
    = Raise ValueError.
Proof. repeat split; vm_compute; reflexivity. Qed.

(** C7, amended: on the local index [search] and [batchsearch] turn every
    (id, score) tuple of the index's answer into the record with fields
    [id] and [score], the score passed through [float], keep every other
    element (a record already) as it is, and return the elements in the
    order the index gave them; with a cluster they return the cluster's
    answer as they received it. [similarity], [batchsimilarity] and
    [label] build the same records, in the upstream order, from elements
    that unpack into exactly an id and a score, whether the answer comes
    from a pipeline or from the index; an element with another number of
    parts, a record among them, raises. [(1, 0.9), (2, 0.5)] becomes the
    two records with ids 1 and 2 and scores 0.9 and 0.5. *)
Theorem search_normalizes `{RT : Runtime} {E C : Type}
    `{EO : !Embeddings E} `{CO : !Cluster C} (s : API E C) :
  (forall e q r lim results rs,
     cluster s = None -> embeddings s = Some e ->
     limit (limit_param r) = Ok lim ->
     emb_search e q lim = Ok results -> py_iter results = Ok rs ->
     (forall v, (search q r s).1 = Ok v ->
        exists out, v = PList out /\ Forall2 normalized rs out) /\
     (forallb normalizable rs = true ->
        exists out,
          search q r s = (Ok (PList out), emit (LocalCall "search") s) /\
          Forall2 normalized rs out)) /\
  (forall e qs l n found groups,
     cluster s = None -> embeddings s = Some e ->
     limit l = Ok n ->
     emb_batchsearch e qs n = Ok found -> py_iter found = Ok groups ->
     (forall v, (batchsearch qs l s).1 = Ok v ->
        exists outs, v = PList outs /\ Forall2 normalized_group groups outs) /\
     (forallb (group_of normalizable) groups = true ->
        exists outs,
          batchsearch qs l s =
            (Ok (PList outs), emit (LocalCall "batchsearch") s) /\
          Forall2 normalized_group groups outs)) /\
  (forall c, cluster s = Some c ->
     (forall q r lim, limit (limit_param r) = Ok lim ->
        search q r s = (cl_search c q lim, emit (ClusterCall "search") s)) /\
     (forall qs l n, limit l = Ok n ->
        batchsearch qs l s =
          (cl_batchsearch c qs n, emit (ClusterCall "batchsearch") s))) /\
  (forall q ts results rs,
     py_iter results = Ok rs -> forallb scorable rs = true ->
     (forall p, pipelines s !! "similarity" = Some p ->
        pipeline_call p [q; ts] = Ok results ->
        exists out,
          similarity q ts s =
            (Ok (PList out), emit (PipelineCall "similarity") s) /\
          Forall2 scored_pair rs out) /\
     (forall e, pipelines s !! "similarity" = None -> embeddings s = Some e ->
        emb_similarity e q ts = Ok results ->
        exists out,
          similarity q ts s =
            (Ok (PList out), emit (LocalCall "similarity") s) /\
          Forall2 scored_pair rs out) /\
     (forall p text, q = PStr text -> pipelines s !! "labels" = Some p ->
        pipeline_call p [q; ts] = Ok results ->
        exists out,
          label q ts s = (Ok (PList out), emit (PipelineCall "labels") s) /\
          Forall2 scored_pair rs out)) /\
  (forall qs ts found groups,
     py_iter found = Ok groups -> forallb (group_of scorable) groups = true ->
     (forall p, pipelines s !! "similarity" = Some p ->
        pipeline_call p [qs; ts] = Ok found ->
        exists outs,
          batchsimilarity qs ts s =
            (Ok (PList outs), emit (PipelineCall "similarity") s) /\
          Forall2 scored_group groups outs) /\
     (forall e, pipelines s !! "similarity" = None -> embeddings s = Some e ->
        emb_batchsimilarity e qs ts = Ok found ->
        exists outs,
          batchsimilarity qs ts s =
            (Ok (PList outs), emit (LocalCall "batchsimilarity") s) /\
          Forall2 scored_group groups outs) /\
     (forall p, (forall text, qs <> PStr text) ->
        pipelines s !! "labels" = Some p ->
        pipeline_call p [qs; ts] = Ok found ->
        exists outs,
          label qs ts s = (Ok (PList outs), emit (PipelineCall "labels") s) /\
          Forall2 scored_group groups outs)) /\
  (forall r items, py_iter r = Ok items -> length items <> 2%nat ->
     score_record r = Raise ValueError) /\
  unpack_results (PList [PTuple [PInt 1; PFloat 0.9]; PTuple [PInt 2; PFloat 0.5]])
    = Ok (PList [PDict [("id", PInt 1); ("score", PFloat 0.9)];
                 PDict [("id", PInt 2); ("score", PFloat 0.5)]]) /\
  score_records (PList [PTuple [PInt 1; PFloat 0.9]; PTuple [PInt 2; PFloat 0.5]])
    = Ok (PList [PDict [("id", PInt 1); ("score", PFloat 0.9)];
                 PDict [("id", PInt 2); ("score", PFloat 0.5)]]) /\
  (forall d, unpack_result (PDict d) = Ok (PDict d)).
Proof.
  split; [intros; by eapply search_local_normalized|].
  split; [intros; by eapply batchsearch_local_normalized|].
  split; [intros; by apply search_cluster_as_received|].
  split; [intros; by eapply similarity_scored|].
  split; [intros; by eapply batchsimilarity_scored|].
  split; [apply score_record_arity|].
  split; [reflexivity|]. split; reflexivity.
Qed.

Lemma search_normalizes_witness :
  let s := gateway ∅ (Some pairs_index) None in
  search (PStr "feel good story") None s =
    (Ok (PList [PDict [("id", PInt 1); ("score", PFloat 0.9)];
                PDict [("id", PInt 2); ("score", PFloat 0.5)]]),
     emit (LocalCall "search") s) /\
  exists out,
    similarity (PStr "feel good story") (PList [PStr "a"; PStr "b"]) s =
      (Ok (PList out), emit (LocalCall "similarity") s) /\
    length out = 2%nat.
Proof.
  intros s.
  destruct (search_normalizes (RT:=stub_runtime) (EO:=stub_embeddings)
              (CO:=stub_cluster) s) as (Hsearch & _ & _ & Hsim & _).
  split.
  - destruct (Hsearch pairs_index (PStr "feel good story") None 10
                (PList [PTuple [PInt 1; PFloat 0.9]; PTuple [PInt 2; PFloat 0.5]])
                [PTuple [PInt 1; PFloat 0.9]; PTuple [PInt 2; PFloat 0.5]]
                eq_refl eq_refl eq_refl eq_refl eq_refl) as (_ & Htotal).
    destruct (Htotal eq_refl) as (out & Hout & Hall).
    rewrite Hout. f_equal. f_equal. f_equal.
    repeat match goal with
           | H : Forall2 _ _ _ |- _ => inversion H; clear H; subst
           end.
    repeat match goal with
           | H : normalized _ _ |- _ => destruct H as (f & [= <-] & ->)
           end.
    reflexivity.
  - destruct (Hsim (PStr "feel good story") (PList [PStr "a"; PStr "b"])
                (PList [PTuple [PInt 1; PFloat 0.9]; PTuple [PInt 2; PFloat 0.5]])
                [PTuple [PInt 1; PFloat 0.9]; PTuple [PInt 2; PFloat 0.5]]
                eq_refl eq_refl) as (_ & Hindex & _).
    destruct (Hindex pairs_index eq_refl eq_refl eq_refl) as (out & Hout & Hall).
    exists out. split; [exact Hout|].
    apply Forall2_length in Hall. symmetry. exact Hall.
Defined.

(** ** Resolving workflow tasks *)

Section Resolve.
Context `{RT : Runtime} {E C : Type} `{EO : !Embeddings E} `{CO : !Cluster C}.
Implicit Types s : API E C.
Implicit Types task : gmap string PyVal.

Lemma function_name s (name : string) :
  function s (PStr name) =
    match pipelines s !! name with
    | Some p => Ok p
    | None => factory_create (PStr name)
    end.
Proof. reflexivity. Qed.

(** Every name of the loop is resolved in place, in order. *)
Lemma resolve_actions_spec s (values : list PyVal) :
  forall acc task actions task',
    resolve_actions s values acc task = (Ok actions, task') ->
    exists new, actions = acc ++ new /\ Forall2 (resolved_as s) values new.
Proof.
  induction values as [|a values IH]; intros acc task actions task' H; cbn in H.
  - injection H as <- <-. exists []. rewrite app_nil_r. split; [done|constructor].
  - destruct (indexing_action a) eqn:Ha.
    + destruct (IH _ _ _ _ H) as (new & -> & Hall).
      exists (PObj BoundAdd :: new). rewrite <- app_assoc. split; [done|].
      constructor; [|done]. unfold resolved_as. by rewrite Ha.
    + destruct (function s a) as [o|] eqn:Hf; [|done].
      destruct (IH _ _ _ _ H) as (new & -> & Hall).
      exists (PObj o :: new). rewrite <- app_assoc. split; [done|].
      constructor; [|done]. unfold resolved_as. rewrite Ha. by exists o.
Qed.

(** The entries other than [unpack] and [finalize] are not touched by the
    loop. *)
Lemma resolve_actions_keeps s (values : list PyVal) key :
  key <> "unpack" -> key <> "finalize" ->
  forall acc task, (resolve_actions s values acc task).2 !! key = task !! key.
Proof.
  intros H1 H2. induction values as [|a values IH]; intros acc task; cbn; [done|].
  destruct (indexing_action a).
  - rewrite IH. by rewrite !lookup_insert_ne by done.
  - destruct (function s a); [apply IH|done].
Qed.

Lemma resolve_entry_other s key key' task :
  key <> key' -> (resolve_entry s key task).2 !! key' = task !! key'.
Proof.
  intros Hne. unfold resolve_entry.
  destruct (task !! key) as [[]|]; try done.
  destruct (function s _); [|done]. cbn. by rewrite lookup_insert_ne.
Qed.

Lemma resolve_entry_callable s key task o :
  task !! key = Some (PObj o) -> resolve_entry s key task = (Ok tt, task).
Proof. unfold resolve_entry. by intros ->. Qed.

(** What [resolve] leaves in the entries set by its first part. *)
Lemma resolve_after_action s task task1 key v :
  resolve_action s task = (Ok tt, task1) ->
  key <> "initialize" -> task1 !! key = Some (PObj v) ->
  (resolve s task).2 !! key = Some (PObj v).
Proof.
  intros Ha Hk Hv. unfold resolve. rewrite Ha.
  destruct (resolve_entry s "initialize" task1) as [[[]|e] task2] eqn:Hi.
  - assert (task2 !! key = Some (PObj v)) as H2.
    { change task2 with (Ok tt, task2).2. rewrite <- Hi.
      rewrite resolve_entry_other by done. done. }
    destruct (decide (key = "finalize")) as [->|Hne].
    + by rewrite (resolve_entry_callable _ _ _ v).
    + by rewrite resolve_entry_other.
  - cbn. change task2 with (@Raise unit e, task2).2. rewrite <- Hi.
    by rewrite resolve_entry_other.
Qed.

Lemma resolve_indexing s task (a : string) :
  task !! "action" = Some (PStr a) -> a = "index" \/ a = "upsert" ->
  (resolve s task).2 !! "action" = Some (PObj BoundAdd) /\
  (resolve s task).2 !! "unpack" = Some (PBool false) /\
  (resolve s task).2 !! "finalize" =
    Some (PObj (if String.eqb a "upsert" then BoundUpsert else BoundIndex)).
Proof.
  intros Hact Ha.
  assert (resolve_action s task =
          (Ok tt, <["action" := PObj BoundAdd]>
                    (<["finalize" := finalizer (PStr a)]>
                       (<["unpack" := PBool false]> task)))) as Hra.
  { unfold resolve_action. rewrite Hact. cbn.
    by destruct Ha as [-> | ->]. }
  split; [|split].
  - eapply resolve_after_action; [exact Hra|done|]. by rewrite lookup_insert_eq.
  - unfold resolve. rewrite Hra.
    match goal with |- context [resolve_entry s "initialize" ?t] =>
      set (t1 := t) end.
    assert (t1 !! "unpack" = Some (PBool false)) as H1.
    { subst t1. rewrite !lookup_insert_ne by done. by rewrite lookup_insert_eq. }
    assert (t1 !! "finalize" = Some (finalizer (PStr a))) as H2.
    { subst t1. rewrite lookup_insert_ne by done. by rewrite lookup_insert_eq. }
    destruct (resolve_entry s "initialize" t1) as [[[]|e] task2] eqn:Hi.
    + assert (task2 = (resolve_entry s "initialize" t1).2) as -> by by rewrite Hi.
      rewrite (resolve_entry_callable _ _ _
                 (if String.eqb a "upsert" then BoundUpsert else BoundIndex)).
      * cbn. by rewrite resolve_entry_other.
      * rewrite resolve_entry_other by done. rewrite H2. cbn.
        by destruct (String.eqb a "upsert").
    + cbn. assert (task2 = (resolve_entry s "initialize" t1).2) as -> by by rewrite Hi.
      by rewrite resolve_entry_other.
  - eapply resolve_after_action; [exact Hra|done|].
    rewrite lookup_insert_ne, lookup_insert_eq by done. cbn.
    by destruct (String.eqb a "upsert").
Qed.

Lemma resolve_other_name s task (a : string) :
  task !! "action" = Some (PStr a) -> a <> "index" -> a <> "upsert" ->
  (forall o, function s (PStr a) = Ok o ->
     (resolve s task).2 !! "action" = Some (PObj o) /\
     (resolve s task).2 !! "unpack" = task !! "unpack") /\
  (forall e, function s (PStr a) = Raise e -> resolve s task = (Raise e, task)).
Proof.
  intros Hact H1 H2.
  apply String.eqb_neq in H1, H2.
  split.
  - intros o Ho.
    assert (resolve_action s task = (Ok tt, <["action" := PObj o]> task)) as Hra.
    { unfold resolve_action. rewrite Hact. cbn -[function].
      by rewrite H1, H2, Ho. }
    split.
    + eapply resolve_after_action; [exact Hra|done|]. by rewrite lookup_insert_eq.
    + unfold resolve. rewrite Hra.
      destruct (resolve_entry s "initialize" _) as [[[]|e] task2] eqn:Hi.
      * assert (task2 = (resolve_entry s "initialize"
                           (<["action" := PObj o]> task)).2) as -> by by rewrite Hi.
        rewrite !resolve_entry_other by done. by rewrite lookup_insert_ne.
      * cbn. assert (task2 = (resolve_entry s "initialize"
                           (<["action" := PObj o]> task)).2) as -> by by rewrite Hi.
        rewrite !resolve_entry_other by done. by rewrite lookup_insert_ne.
  - intros e He. unfold resolve, resolve_action. rewrite Hact.
    cbn -[function]. by rewrite H1, H2, He.
Qed.
End Resolve.

Section ResolveLists.
Context `{RT : Runtime} {E C : Type} `{EO : !Embeddings E} `{CO : !Cluster C}.
Implicit Types s : API E C.
Implicit Types task : gmap string PyVal.

Lemma resolve_list s task (names : list PyVal) :
  task !! "action" = Some (PList names) -> (resolve s task).1 = Ok tt ->
  exists actions, (resolve s task).2 !! "action" = Some (PList actions) /\
                  Forall2 (resolved_as s) names actions.
Proof.
  intros Hact Hok. unfold resolve in *. unfold resolve_action in *.
  rewrite Hact in *.
  destruct (resolve_actions s names [] task) as [[actions|e] task'] eqn:Hra;
    [|done].
  destruct (resolve_actions_spec s names [] task actions task' Hra)
    as (new & -> & Hall).
  exists new. split; [|done]. cbn [app] in *.
  destruct (resolve_entry s "initialize" _) as [[[]|e] task2] eqn:Hi.
  - assert (task2 = (resolve_entry s "initialize"
                       (<["action" := PList new]> task')).2) as -> by by rewrite Hi.
    rewrite !resolve_entry_other by done. by rewrite lookup_insert_eq.
  - cbn. assert (task2 = (resolve_entry s "initialize"
                       (<["action" := PList new]> task')).2) as -> by by rewrite Hi.
    rewrite !resolve_entry_other by done. by rewrite lookup_insert_eq.
Qed.

Lemma resolve_indexing_returns s task (a : string) :
  task !! "action" = Some (PStr a) -> a = "index" \/ a = "upsert" ->
  task !! "initialize" = None -> (resolve s task).1 = Ok tt.
Proof.
  intros Hact Ha Hi.
  assert (resolve_action s task =
          (Ok tt, <["action" := PObj BoundAdd]>
                    (<["finalize" := finalizer (PStr a)]>
                       (<["unpack" := PBool false]> task)))) as Hra.
  { unfold resolve_action. rewrite Hact. cbn.
    by destruct Ha as [-> | ->]. }
  unfold resolve. rewrite Hra.
  assert (resolve_entry s "initialize"
            (<["action" := PObj BoundAdd]>
               (<["finalize" := finalizer (PStr a)]>
                  (<["unpack" := PBool false]> task))) =
          (Ok tt, <["action" := PObj BoundAdd]>
                    (<["finalize" := finalizer (PStr a)]>
                       (<["unpack" := PBool false]> task)))) as ->.
  { unfold resolve_entry. rewrite !lookup_insert_ne by done. by rewrite Hi. }
  unfold resolve_entry. rewrite lookup_insert_ne by done.
  rewrite lookup_insert_eq. cbn. by destruct (String.eqb a "upsert").
Qed.
End ResolveLists.



(** ** Resolving a task twice *)

Section Twice.
Context `{RT : Runtime} {E C : Type} `{EO : !Embeddings E} `{CO : !Cluster C}.
Implicit Types s : API E C.
Implicit Types task : gmap string PyVal.

(** After [resolve_entry] the entry is no string any more, unless the
    call raised. *)
Lemma resolve_entry_twice s key task :
  resolve_entry s key (resolve_entry s key task).2 = resolve_entry s key task.
Proof.
  unfold resolve_entry.
  destruct (task !! key) as [v|] eqn:Hk; cbn -[function]; rewrite ?Hk; try done.
  destruct v as [| | | |name| | | |]; cbn -[function]; rewrite ?Hk; try done.
  destruct (function s (PStr name)) as [o|e] eqn:Hf; cbn -[function];
    by rewrite ?lookup_insert_eq, ?Hk, ?Hf.
Qed.

Lemma resolve_entry_skip s key task :
  match task !! key with Some (PStr _) => False | _ => True end ->
  resolve_entry s key task = (Ok tt, task).
Proof. unfold resolve_entry. by destruct (task !! key) as [[]|]. Qed.

Lemma resolve_entry_resolved s key task task' :
  resolve_entry s key task = (Ok tt, task') ->
  match task' !! key with Some (PStr _) => False | _ => True end.
Proof.
  unfold resolve_entry.
  destruct (task !! key) as [v|] eqn:Hk.
  - destruct v as [| | | |name| | | |]; try (intros [= <-]; by rewrite Hk).
    destruct (function s (PStr name)); [|done].
    intros [= <-]. by rewrite lookup_insert_eq.
  - intros [= <-]. by rewrite Hk.
Qed.

Lemma resolve_entry_raises s key task task' e :
  resolve_entry s key task = (Raise e, task') -> task' = task.
Proof.
  unfold resolve_entry.
  destruct (task !! key) as [[| | | |name| | | |]|]; try done.
  destruct (function s (PStr name)); [done|]. by intros [= _ <-].
Qed.

Lemma resolve_without_action s task :
  task !! "action" = None ->
  resolve s task = match resolve_entry s "initialize" task with
                   | (Ok _, t2) => resolve_entry s "finalize" t2
                   | r => r
                   end.
Proof. intros Ht. unfold resolve, resolve_action. by rewrite Ht. Qed.

Lemma resolve_no_action_twice s task :
  task !! "action" = None -> resolve s (resolve s task).2 = resolve s task.
Proof.
  intros Hact. rewrite (resolve_without_action s task Hact).
  destruct (resolve_entry s "initialize" task) as [[[]|e] t2] eqn:Hi.
  - assert (t2 !! "action" = None) as Hact2.
    { replace t2 with (resolve_entry s "initialize" task).2 by by rewrite Hi.
      by rewrite resolve_entry_other. }
    pose proof (resolve_entry_resolved _ _ _ _ Hi) as Hn2.
    destruct (resolve_entry s "finalize" t2) as [[[]|e] t3] eqn:Hf; cbn [snd].
    + assert (t3 !! "action" = None) as Hact3.
      { replace t3 with (resolve_entry s "finalize" t2).2 by by rewrite Hf.
        by rewrite resolve_entry_other. }
      assert (t3 !! "initialize" = t2 !! "initialize") as Hi3.
      { replace t3 with (resolve_entry s "finalize" t2).2 by by rewrite Hf.
        by rewrite resolve_entry_other. }
      rewrite (resolve_without_action s t3 Hact3).
      rewrite (resolve_entry_skip s "initialize" t3) by by rewrite Hi3.
      apply resolve_entry_skip. by eapply resolve_entry_resolved.
    + apply resolve_entry_raises in Hf as Heq. subst t3.
      rewrite (resolve_without_action s t2 Hact2).
      rewrite (resolve_entry_skip s "initialize" t2) by done. exact Hf.
  - apply resolve_entry_raises in Hi as Heq. subst t2. cbn [snd].
    rewrite (resolve_without_action s task Hact). by rewrite Hi.
Qed.

(** An action that is a callable already is resolved again: it is no key
    of the registry, so it goes to the pipeline factory. *)
Lemma resolve_action_callable s task o :
  task !! "action" = Some (PObj o) ->
  resolve_action s task =
    match factory_create (PObj o) with
    | Ok f => (Ok tt, <["action" := PObj f]> task)
    | Raise e => (Raise e, task)
    end.
Proof.
  intros Hact. unfold resolve_action. rewrite Hact. cbn.
  by destruct (factory_create (PObj o)).
Qed.
End Twice.

(** C8, as stated, fails: resolving the task [{"action": "index"}] a second
    time hands the bound [add] method, now stored as the action, to the
    pipeline factory, which raises on an argument that is no name. *)
Lemma resolve_twice_raises :
  let s := gateway ∅ None None in
  let task : gmap string PyVal := {["action" := PStr "index"]} in
  (resolve s task).1 = Ok tt /\
  (resolve s task).2 !! "action" = Some (PObj BoundAdd) /\
  resolve s (resolve s task).2 = (Raise TypeError, (resolve s task).2) /\
  resolve s (resolve s task).2 <> resolve s task.
Proof.
  intros s task.
  assert (resolve s task =
          (Ok tt, <["action" := PObj BoundAdd]>
                    (<["finalize" := PObj BoundIndex]>
                       (<["unpack" := PBool false]> task)))) as Hr.
  { reflexivity. }
  rewrite Hr. cbn [fst snd].
  split; [done|]. split; [by rewrite lookup_insert_eq|].
  assert (resolve s (<["action" := PObj BoundAdd]>
                    (<["finalize" := PObj BoundIndex]>
                       (<["unpack" := PBool false]> task))) =
          (Raise TypeError, <["action" := PObj BoundAdd]>
                    (<["finalize" := PObj BoundIndex]>
                       (<["unpack" := PBool false]> task)))) as Hr2.
  { unfold resolve. rewrite (resolve_action_callable _ _ BoundAdd).
    - reflexivity.
    - by rewrite lookup_insert_eq. }
  rewrite Hr2. split; [done|]. discriminate.
Qed.

(** C8 (amended): resolving twice is the same as resolving once for a task
    without an action entry: [initialize] and [finalize] are resolved only
    while they are strings, and a callable stored there is left as it is.
    The action entry is resolved on every call, whatever it holds: a
    callable stored there is handed to the pipeline factory, and the task
    keeps it only if the factory returns it. *)
Theorem resolve_twice `{RT : Runtime} {E C : Type}
    `{EO : !Embeddings E} `{CO : !Cluster C} (s : API E C)
    (task : gmap string PyVal) :
  (task !! "action" = None -> resolve s (resolve s task).2 = resolve s task) /\
  (forall key o, task !! key = Some (PObj o) ->
     resolve_entry s key task = (Ok tt, task)) /\
  (forall o, task !! "action" = Some (PObj o) ->
     resolve_action s task =
       match factory_create (PObj o) with
       | Ok f => (Ok tt, <["action" := PObj f]> task)
       | Raise e => (Raise e, task)
       end).
Proof.
  split; [apply resolve_no_action_twice|].
  split; [intros key o; apply resolve_entry_callable|].
  intros o. apply resolve_action_callable.
Qed.

Lemma resolve_twice_witness :
  let s := gateway ∅ None None in
  let task : gmap string PyVal :=
    {["initialize" := PStr "summary"; "finalize" := PStr "translation"]} in
  task !! "action" = None /\
  (resolve s task).1 = Ok tt /\
  resolve s (resolve s task).2 = resolve s task.
Proof.
  intros s task. split; [reflexivity|]. split; [reflexivity|].
  destruct (resolve_twice (RT:=stub_runtime) (EO:=stub_embeddings)
              (CO:=stub_cluster) s task) as (H & _).
  exact (H eq_refl).
Defined.

(** ** Unknown pipelines and workflows *)

(** C10: [workflow] on a name that is not in the workflow registry raises
    (the [KeyError] of the lookup when the elements can be iterated) and
    never returns the [None] sentinel, whereas [pipeline] returns [None]
    for every name that is not in the pipeline registry. Neither call
    changes the gateway. *)
Theorem unknown_workflow_raises `{RT : Runtime} {E C : Type}
    `{EO : !Embeddings E} `{CO : !Cluster C}
    (workflow_call : Obj -> list PyVal -> M E C PyVal)
    (s : API E C) (name : string) :
  (workflows s !! name = None ->
     (forall elements,
        exists e, workflow workflow_call name elements s = (Raise e, s)) /\
     (forall elements items, py_iter elements = Ok items ->
        workflow workflow_call name elements s = (Raise (KeyError name), s))) /\
  (pipelines s !! name = None ->
     forall args, pipeline name args s = (Ok PNone, s)).
Proof.
  split.
  - intros Hw. split.
    + intros elements. run. rw.
      destruct (py_iter elements); rw; by eexists.
    + intros elements items Hit. run. by rw.
  - intros Hp args. run. by rw.
Qed.

Lemma unknown_workflow_raises_witness :
  let s := gateway ∅ None None in
  workflow stub_workflow_call "index-docs" (PList [PStr "a"]) s =
    (Raise (KeyError "index-docs"), s) /\
  pipeline "index-docs" (PList [PStr "a"]) s = (Ok PNone, s).
Proof.
  intros s.
  destruct (unknown_workflow_raises (RT:=stub_runtime) (EO:=stub_embeddings)
              (CO:=stub_cluster) stub_workflow_call s "index-docs")
    as (Hw & Hp).
  destruct (Hw eq_refl) as (_ & Hk).
  split; [exact (Hk (PList [PStr "a"]) [PStr "a"] eq_refl)|].
  exact (Hp eq_refl (PList [PStr "a"])).
Defined.

(** ** Threads writing at the same time *)

Section Interleaving.
Context `{RT : Runtime} {E C : Type} `{EO : !Embeddings E} `{CO : !Cluster C}.
Implicit Types s : API E C.
Implicit Types pool : list Pc.

Lemma add_loop_length (items : list PyVal) : forall index acc batch,
  add_loop index acc items = Ok batch ->
  length batch = (length acc + length items)%nat.
Proof.
  induction items as [|doc items IH]; intros index acc batch H; cbn in H.
  - injection H as <-. cbn. lia.
  - assert (forall idx out, add_loop idx (acc ++ [out]) items = Ok batch ->
              length batch = (length acc + length (doc :: items))%nat) as Hstep.
    { intros idx out Hr. apply IH in Hr. rewrite length_app in Hr. cbn in *. lia. }
    destruct doc as [| | | |t|l|l|d|o]; cbn in H; try (by eapply Hstep).
    + destruct (py_add index 1) as [idx|]; [|done]. cbn in H. by eapply Hstep.
    + destruct l as [|a [|b [|c l]]]; cbn in H; try discriminate; by eapply Hstep.
    + destruct (dict_get d "id"); [|done]. by eapply Hstep.
Qed.

Lemma documents_falsy_buffered s : documents_truthy s = false -> buffered s = 0%nat.
Proof.
  unfold documents_truthy, buffered. by destruct (documents s) as [[|]|].
Qed.

(** Closes the summary of a statement once source and target are known. *)
Ltac summary :=
  unfold buffers_locally, buffered; cbn;
  repeat split; try done; try (by eexists).

(** What one statement of a thread does to the shared gateway. *)
Lemma thread_step_summary s pc pc' s' :
  buffers_locally s -> well_placed pc s -> thread_step pc s = Some (pc', s') ->
  buffers_locally s' /\ well_placed pc' s' /\
  (adding pc = true ->
   adding pc' = true /\
   (buffered s' + committed pc = buffered s + committed pc')%nat) /\
  (critical pc = false -> critical pc' = true -> lock s = false /\ lock s' = true) /\
  (critical pc = false -> critical pc' = false -> s' = s) /\
  (critical pc = true -> critical pc' = true -> lock s' = lock s) /\
  (critical pc = true -> critical pc' = false -> lock s' = false).
Proof.
  intros (Hc & [e He] & Hw) Hwp Hstep.
  destruct pc as [d|d|d|d|d|d idx|d batch|op|op| |op|handed|handed|ids|ids|ids|r|r];
    cbn in Hstep.
  - (* Enter *)
    rewrite Hc, He, Hw in Hstep. cbn in Hstep. injection Hstep as <- <-.
    summary.
  - (* Locking *)
    destruct (lock s) eqn:Hl; [done|]. injection Hstep as <- <-.
    summary.
  - (* Checking *)
    injection Hstep as <- <-.
    unfold buffers_locally, documents_truthy.
    destruct (documents s) as [[|]|] eqn:Hd; cbn; unfold documents_truthy;
      rewrite ?Hd; repeat split; try done; by eexists.
  - (* Creating *)
    injection Hstep as <- <-. cbn in Hwp.
    apply documents_falsy_buffered in Hwp as Hb.
    unfold buffers_locally, buffered in *. cbn. rewrite Hb.
    repeat split; try done; by eexists.
  - (* Counting *)
    cbn in Hwp. destruct Hwp as [buf Hd].
    revert Hstep. run. rw. destruct (emb_count e) as [n|x]; rw;
      intros [= <- <-]; unfold buffers_locally, buffered; run; rw;
      repeat split; try done; by eexists.
  - (* Building *)
    cbn in Hwp. unfold batch_size.
    destruct (py_iter d) as [items|x] eqn:Hit; cbn in Hstep.
    + destruct (add_loop idx [] items) as [batch|x] eqn:Hb;
        injection Hstep as <- <-; repeat split; try done; try (by eexists).
      cbn. unfold batch_size. rewrite Hit. by apply add_loop_length in Hb.
    + injection Hstep as <- <-. repeat split; try done; by eexists.
  - (* Appending *)
    cbn in Hwp. destruct Hwp as [[buf Hd] Hlen].
    revert Hstep. run. rw. intros [= <- <-].
    unfold buffers_locally, buffered. run. rw.
    repeat split; try done; try (by eexists).
    all: rewrite ?length_app; lia.
  - (* FlushEnter *)
    rewrite Hc, He, Hw in Hstep. cbn in Hstep.
    destruct (documents_truthy s); injection Hstep as <- <-; summary.
  - (* FlushLocking *)
    destruct (lock s) eqn:Hl; [done|]. injection Hstep as <- <-.
    destruct op; summary.
  - (* Scoring *)
    revert Hstep. run. rw.
    destruct (emb_scoring e); rw; [|intros [= <- <-]; summary].
    destruct (emb_score e (documents s)) as [[[]|x] e1]; rw;
      intros [= <- <-]; summary.
  - (* Flushing *)
    revert Hstep. run. rw.
    destruct op;
      [destruct (emb_index e (documents s)) as [[[]|x] e1]
      |destruct (emb_upsert e (documents s)) as [[[]|x] e1]]; rw;
      intros [= <- <-]; summary.
  - (* Saving *)
    cbn in Hwp. revert Hstep. run. rw.
    destruct (py_truthy (default PNone (config s !! "path"))); rw;
      [|intros [= <- <-]; summary].
    destruct (emb_save e (default PNone (config s !! "path"))) as [[[]|x] e1];
      rw; intros [= <- <-]; summary.
  - (* Closing *)
    revert Hstep. run.
    destruct (documents s) as [buf|]; rw; intros [= <- <-]; summary.
  - (* DeleteEnter *)
    rewrite Hc, He, Hw in Hstep. cbn in Hstep. injection Hstep as <- <-.
    summary.
  - (* DeleteLocking *)
    destruct (lock s) eqn:Hl; [done|]. injection Hstep as <- <-.
    summary.
  - (* Deleting *)
    revert Hstep. run. rw.
    destruct (emb_delete e ids) as [r e1]; rw. intros [= <- <-]. summary.
  - (* Releasing *)
    injection Hstep as <- <-. summary.
  - done.
Qed.

Lemma committed_insert pool i pc pc' :
  pool !! i = Some pc ->
  (sum_list (committed <$> <[i := pc']> pool) + committed pc =
   sum_list (committed <$> pool) + committed pc')%nat.
Proof.
  revert i. induction pool as [|x pool IH]; intros [|i] H;
    cbn -[committed] in *; try done.
  - injection H as ->.
    generalize (committed pc) (committed pc') (sum_list (committed <$> pool)).
    intros; lia.
  - specialize (IH i H). rewrite <- !Nat.add_assoc. by f_equal.
Qed.

Lemma critical_well_placed pc s : critical pc = false -> well_placed pc s.
Proof. by destruct pc. Qed.

Lemma calling_not_critical pool :
  forallb calling pool = true ->
  forall j pc, pool !! j = Some pc -> critical pc = false.
Proof.
  intros Hall j pc Hj. rewrite forallb_forall in Hall.
  assert (calling pc = true) as Hc.
  { apply Hall. apply list_elem_of_In. by eapply list_elem_of_lookup_2. }
  by destruct pc.
Qed.

(** The invariant holds when the threads are about to call their method
    and the lock is free. *)
Lemma pool_invariant_init s pool :
  buffers_locally s -> lock s = false -> forallb calling pool = true ->
  pool_invariant (pool, s).
Proof.
  intros Hb Hl Hcall. unfold pool_invariant. cbn [fst snd].
  pose proof (calling_not_critical pool Hcall) as Hnc.
  split; [done|]. split; [intros _; exact Hnc|].
  split; [intros; congruence|]. split.
  - intros i j pci pcj Hi _ Hci _. apply Hnc in Hi. congruence.
  - intros j pc Hj. eapply critical_well_placed. by eapply Hnc.
Qed.

(** Scheduling any thread for one statement keeps the invariant. *)
Lemma pool_invariant_step (st : Pool) i :
  pool_invariant st -> pool_invariant (schedule_step i st).
Proof.
  destruct st as [pool s]. intros Hinv. unfold schedule_step. cbn [fst snd].
  destruct (pool !! i) as [pc|] eqn:Hi; [|done].
  destruct (thread_step pc s) as [[pc' s']|] eqn:Hstep; [|done].
  destruct Hinv as (Hb & Hfree & Hheld & Hex & Hwp). cbn [fst snd] in *.
  destruct (thread_step_summary s pc pc' s' Hb (Hwp i pc Hi) Hstep)
    as (Hb' & Hwp' & _ & Henter & Hout & Hin & Hleave).
  assert (forall j pcj, j <> i -> pool !! j = Some pcj ->
            critical pc = true -> critical pcj = false) as Hothers.
  { intros j pcj Hne Hj Hc. destruct (critical pcj) eqn:Hcj; [|done].
    by specialize (Hex _ _ _ _ Hj Hi Hcj Hc). }
  assert (i < length pool)%nat as Hlt by by eapply lookup_lt_Some.
  unfold pool_invariant. cbn [fst snd].
  split; [done|]. split; [|split; [|split]].
  - (* nobody is critical while the lock is free *)
    intros Hl j pcj Hj.
    destruct (decide (j = i)) as [->|Hne].
    + rewrite list_lookup_insert_eq in Hj by done. injection Hj as <-.
      destruct (critical pc') eqn:Hc'; [|done].
      destruct (critical pc) eqn:Hc.
      * rewrite (Hin eq_refl eq_refl) in Hl.
        specialize (Hfree Hl i pc Hi). congruence.
      * destruct (Henter eq_refl eq_refl). congruence.
    + rewrite list_lookup_insert_ne in Hj by done.
      destruct (critical pc) eqn:Hc; [by eapply Hothers|].
      destruct (critical pc') eqn:Hc'.
      * destruct (Henter eq_refl eq_refl). congruence.
      * rewrite (Hout eq_refl eq_refl) in Hl. by eapply Hfree.
  - (* somebody is critical while the lock is held *)
    intros Hl.
    destruct (critical pc') eqn:Hc'.
    { exists i, pc'. by rewrite list_lookup_insert_eq. }
    destruct (critical pc) eqn:Hc.
    { rewrite (Hleave eq_refl eq_refl) in Hl. done. }
    rewrite (Hout eq_refl eq_refl) in Hl.
    destruct (Hheld Hl) as (j & pcj & Hj & Hcj).
    assert (j <> i) as Hne by (intros ->; congruence).
    exists j, pcj. by rewrite list_lookup_insert_ne.
  - (* at most one thread is critical *)
    assert (forall j pcj, j <> i -> pool !! j = Some pcj ->
              critical pc' = true -> critical pcj = false) as Hnew.
    { intros j pcj Hne Hj Hc'. destruct (critical pc) eqn:Hc; [by eapply Hothers|].
      destruct (Henter eq_refl Hc') as [Hl _]. by eapply Hfree. }
    intros j k pcj pck Hj Hk Hcj Hck.
    destruct (decide (j = i)) as [->|Hnj], (decide (k = i)) as [->|Hnk]; try done.
    + rewrite list_lookup_insert_eq in Hj by done. injection Hj as <-.
      rewrite list_lookup_insert_ne in Hk by done.
      specialize (Hnew k pck Hnk Hk Hcj). congruence.
    + rewrite list_lookup_insert_eq in Hk by done. injection Hk as <-.
      rewrite list_lookup_insert_ne in Hj by done.
      specialize (Hnew j pcj Hnj Hj Hck). congruence.
    + rewrite list_lookup_insert_ne in Hj, Hk by done. by eapply Hex.
  - (* every thread is where it may be *)
    intros j pcj Hj.
    destruct (decide (j = i)) as [->|Hne].
    + rewrite list_lookup_insert_eq in Hj by done. by injection Hj as <-.
    + rewrite list_lookup_insert_ne in Hj by done.
      destruct (critical pcj) eqn:Hcj; [|by eapply critical_well_placed].
      destruct (critical pc) eqn:Hc.
      * specialize (Hothers j pcj Hne Hj eq_refl). congruence.
      * destruct (critical pc') eqn:Hc'.
        -- destruct (Henter eq_refl eq_refl) as [Hl _].
           specialize (Hfree Hl j pcj Hj). congruence.
        -- rewrite (Hout eq_refl eq_refl). by apply (Hwp j).
Qed.

Lemma pool_invariant_interleave (schedule : list nat) :
  forall st : Pool, pool_invariant st -> pool_invariant (interleave schedule st).
Proof.
  unfold interleave.
  induction schedule as [|i schedule IH]; intros st H; cbn; [done|].
  apply IH. by apply pool_invariant_step.
Qed.

Lemma adding_insert pool i pc' :
  forallb adding pool = true -> adding pc' = true ->
  forallb adding (<[i := pc']> pool) = true.
Proof.
  revert i. induction pool as [|x pool IH]; intros i Hall Hpc'; [done|].
  cbn in Hall. apply andb_prop in Hall as [Hx Hpool].
  destruct i as [|i]; cbn.
  - by rewrite Hpc', Hpool.
  - by rewrite Hx, IH.
Qed.

(** Among threads that all call [add], scheduling any of them for one
    statement keeps the buffer in step with what they have committed. *)
Lemma adds_invariant_step base (st : Pool) i :
  pool_invariant st -> adds_invariant base st ->
  adds_invariant base (schedule_step i st).
Proof.
  destruct st as [pool s]. intros Hinv [Hadd Hsum].
  unfold schedule_step. cbn [fst snd] in *.
  destruct (pool !! i) as [pc|] eqn:Hi; [|done].
  destruct (thread_step pc s) as [[pc' s']|] eqn:Hstep; [|done].
  destruct Hinv as (Hb & _ & _ & _ & Hwp). cbn [fst snd] in *.
  assert (adding pc = true) as Hpc.
  { rewrite forallb_forall in Hadd. apply Hadd. apply list_elem_of_In.
    by eapply list_elem_of_lookup_2. }
  destruct (thread_step_summary s pc pc' s' Hb (Hwp i pc Hi) Hstep)
    as (_ & _ & Hcount & _).
  destruct (Hcount Hpc) as [Hpc' Heq].
  split; cbn [fst snd]; [by apply adding_insert|].
  pose proof (committed_insert pool i pc pc' Hi) as Hins.
  apply (Nat.add_cancel_r _ _ (committed pc)).
  rewrite <- Nat.add_assoc, Hins, Nat.add_assoc, <- Hsum.
  rewrite Heq. done.
Qed.

Lemma adds_invariant_interleave base (schedule : list nat) :
  forall st : Pool,
    pool_invariant st -> adds_invariant base st ->
    adds_invariant base (interleave schedule st).
Proof.
  unfold interleave.
  induction schedule as [|i schedule IH]; intros st H Ha; cbn; [done|].
  apply IH; [by apply pool_invariant_step|by apply adds_invariant_step].
Qed.

Lemma adds_invariant_init s (inputs : list PyVal) :
  adds_invariant (buffered s) (Enter <$> inputs, s) /\
  forallb calling (Enter <$> inputs) = true.
Proof.
  unfold adds_invariant. cbn [fst snd].
  induction inputs as [|d inputs [[IH1 IH2] IH3]]; cbn; [by rewrite Nat.add_0_r|].
  by rewrite IH1, IH3.
Qed.

Lemma committed_returned (inputs : list PyVal) :
  sum_list (committed <$> ((fun docs => Finished (Ok docs)) <$> inputs)) =
  sum_list (batch_size <$> inputs).
Proof. induction inputs as [|d inputs IH]; cbn; [done|]. by rewrite IH. Qed.

(** A thread that runs alone does what the method does. *)
Lemma thread_run_add s docs :
  lock s = false ->
  thread_run 8 (Enter docs) s = (Finished (add docs s).1, (add docs s).2).
Proof.
  intros Hl. unfold thread_run, thread_step. run.
  destruct (cluster s) as [c|] eqn:Hc; rw.
  { by destruct (cl_add c docs) as [[[]|] ?]. }
  destruct (embeddings s) as [e|] eqn:He; rw; [|done].
  destruct (py_truthy (default PNone (config s !! "writable"))) eqn:Hw; rw; [|done].
  destruct (documents s) as [[|d0 ds]|] eqn:Hd; rw;
    destruct (emb_count e) as [n|x] eqn:Hn; rw; try done;
    destruct (py_iter docs) as [items|x] eqn:Hit; rw; try done;
    match goal with
    | |- context [add_loop ?i ?b ?l] => destruct (add_loop i b l) eqn:Hb
    end; by rw.
Qed.

Lemma thread_run_index s :
  lock s = false ->
  thread_run 8 (FlushEnter Index) s =
    (Finished (returns_none (index s).1), (index s).2).
Proof.
  intros Hl. unfold thread_run, thread_step, returns_none. run.
  destruct (cluster s) as [c|] eqn:Hc; rw.
  { by destruct (cl_index c) as [[[]|] ?]. }
  destruct (embeddings s) as [e|] eqn:He; rw; [|done].
  destruct (py_truthy (default PNone (config s !! "writable"))) eqn:Hw; rw; [|done].
  destruct (documents s) as [[|d0 ds]|] eqn:Hd; rw; try done.
  destruct (emb_scoring e); rw; repeat (outcome; rw); done.
Qed.

Lemma thread_run_upsert s :
  lock s = false ->
  thread_run 8 (FlushEnter Upsert) s =
    (Finished (returns_none (upsert s).1), (upsert s).2).
Proof.
  intros Hl. unfold thread_run, thread_step, returns_none. run.
  destruct (cluster s) as [c|] eqn:Hc; rw.
  { by destruct (cl_upsert c) as [[[]|] ?]. }
  destruct (embeddings s) as [e|] eqn:He; rw; [|done].
  destruct (py_truthy (default PNone (config s !! "writable"))) eqn:Hw; rw; [|done].
  destruct (documents s) as [[|d0 ds]|] eqn:Hd; rw; try done.
  repeat (outcome; rw); done.
Qed.

Lemma thread_run_delete s ids :
  lock s = false ->
  thread_run 8 (DeleteEnter ids) s =
    (Finished (delete ids s).1, (delete ids s).2).
Proof.
  intros Hl. unfold thread_run, thread_step. run.
  destruct (cluster s) as [c|] eqn:Hc; rw.
  { by destruct (cl_delete c ids) as [[|] ?]. }
  destruct (embeddings s) as [e|] eqn:He; rw; [|done].
  destruct (py_truthy (default PNone (config s !! "writable"))) eqn:Hw; rw; [|done].
  repeat (outcome; rw); done.
Qed.

(** A call that finds the lock held does not get to the buffer or to the
    index. *)
Lemma writes_blocked s :
  buffers_locally s -> lock s = true ->
  (forall d, add d s = (Raise WouldBlock, s)) /\
  (forall ids, delete ids s = (Raise WouldBlock, s)) /\
  (documents_truthy s = true ->
   index s = (Raise WouldBlock, s) /\ upsert s = (Raise WouldBlock, s)).
Proof.
  intros (Hc & [e He] & Hw) Hl.
  split; [intros d; run; by rw|]. split; [intros ids; run; by rw|].
  intros Hd. split; run; by rw.
Qed.

(** A flush that gets the lock when the buffer is gone ends with an
    exception, whatever the index does with the missing buffer. *)
Lemma flush_without_buffer s op :
  buffers_locally s -> lock s = false -> documents s = None ->
  exists x s', thread_run 6 (FlushLocking op) s = (Finished (Raise x), s') /\
               lock s' = false /\ documents s' = None.
Proof.
  intros (Hc & [e He] & Hw) Hl Hd. unfold thread_run, thread_step. run. rw.
  destruct op; rw.
  - destruct (emb_scoring e); rw; repeat (outcome; rw);
      by eexists _, _.
  - repeat (outcome; rw); by eexists _, _.
Qed.
End Interleaving.
(** Gives the events of a call that may have recorded none. *)
Ltac events_or_none :=
  first
    [ exists []; split; [unfold events_since; cbn; by rewrite app_nil_r|];
      by repeat split
    | unfold events_since; cbn; rewrite <- ?app_assoc; cbn;
      eexists; split; [reflexivity|]; by repeat split ].

Section Guarded.
Context `{RT : Runtime} {E C : Type} `{EO : !Embeddings E} `{CO : !Cluster C}.
Implicit Types s : API E C.

Lemma add_guarded s d : lock s = false ->
  exists evs, events_since s (add d s).2 evs /\ guarded evs = true /\
              lock (add d s).2 = false.
Proof.
  intros Hl. run.
  destruct (cluster s) as [c|] eqn:Hc; rw.
  { destruct (cl_add c d) as [[[]|] ?]; rw; events_or_none. }
  destruct (embeddings s) as [e|] eqn:He; rw; [|events_or_none].
  destruct (py_truthy (default PNone (config s !! "writable"))) eqn:Hw; rw;
    [|events_or_none].
  destruct (documents s) as [[|d0 ds]|] eqn:Hd; rw;
    destruct (emb_count e) as [n|x] eqn:Hn; rw; try events_or_none;
    destruct (py_iter d) as [items|x] eqn:Hit; rw; try events_or_none;
    match goal with
    | |- context [add_loop ?i ?b ?l] => destruct (add_loop i b l) eqn:Hb
    end; rw; events_or_none.
Qed.

Lemma index_guarded s : lock s = false ->
  exists evs, events_since s (index s).2 evs /\ guarded evs = true /\
              lock (index s).2 = false.
Proof.
  intros Hl. run.
  destruct (cluster s) as [c|] eqn:Hc; rw.
  { destruct (cl_index c) as [[[]|] ?]; rw; events_or_none. }
  destruct (embeddings s) as [e|] eqn:He; rw; [|events_or_none].
  destruct (py_truthy (default PNone (config s !! "writable"))) eqn:Hw; rw;
    [|events_or_none].
  destruct (documents s) as [[|d0 ds]|] eqn:Hd; rw; try events_or_none.
  repeat (outcome; rw); events_or_none.
Qed.

Lemma upsert_guarded s : lock s = false ->
  exists evs, events_since s (upsert s).2 evs /\ guarded evs = true /\
              lock (upsert s).2 = false.
Proof.
  intros Hl. run.
  destruct (cluster s) as [c|] eqn:Hc; rw.
  { destruct (cl_upsert c) as [[[]|] ?]; rw; events_or_none. }
  destruct (embeddings s) as [e|] eqn:He; rw; [|events_or_none].
  destruct (py_truthy (default PNone (config s !! "writable"))) eqn:Hw; rw;
    [|events_or_none].
  destruct (documents s) as [[|d0 ds]|] eqn:Hd; rw; try events_or_none.
  repeat (outcome; rw); events_or_none.
Qed.

Lemma delete_guarded s ids : lock s = false ->
  exists evs, events_since s (delete ids s).2 evs /\ guarded evs = true /\
              lock (delete ids s).2 = false.
Proof.
  intros Hl. run.
  destruct (cluster s) as [c|] eqn:Hc; rw.
  { destruct (cl_delete c ids) as [[|] ?]; rw; events_or_none. }
  destruct (embeddings s) as [e|] eqn:He; rw; [|events_or_none].
  destruct (py_truthy (default PNone (config s !! "writable"))) eqn:Hw; rw;
    [|events_or_none].
  repeat (outcome; rw); events_or_none.
Qed.
End Guarded.



